(** * Attendance reconciliation: roster candidate filter and review engine

    A shallow embedding of the deterministic parts of the attendance tool:
    - [extractNamesFromExcel] (services part of the single-file variant): the
      cell filter that selects candidate names from a spreadsheet grid;
    - the handlers of [App.tsx] that own the three-bucket classification:
      the tail of [runAnalysis] that stores the sorted oracle answer,
      [rejectMatch], [finalizeReport], [toggleSelection],
      [initiateBulkChange], [handleBulkStatusChange] and [resetApp].

    JavaScript strings are sequences of UTF-16 code units; React state is an
    explicit record threaded through the handlers, and a handler that throws
    leaves the record as it found it. *)

From Stdlib Require Import ZArith NArith List Sorting.Sorted Permutation Lia.
From stdpp Require Import base decidable countable list sorting gmap sets strings.

Local Open Scope N_scope.

(** ** JavaScript strings *)

Module JsStr.

(** A string value: its UTF-16 code units. *)
Abbreviation jsstring := (list N).

(** An ASCII literal as a JavaScript string. *)
Definition js (s : string) : jsstring :=
  map Ascii.N_of_ascii (String.list_ascii_of_string s).

(** ECMAScript [WhiteSpace] and [LineTerminator] code points: the set that
    [String.prototype.trim] strips and that [StringToNumber] skips. *)
Definition isWhiteSpace (c : N) : bool :=
  (c =? 9) || (c =? 10) || (c =? 11) || (c =? 12) || (c =? 13) ||
  (c =? 32) || (c =? 160) || (c =? 5760) ||
  ((8192 <=? c) && (c <=? 8202)) ||
  (c =? 8232) || (c =? 8233) || (c =? 8239) || (c =? 8287) ||
  (c =? 12288) || (c =? 65279).

Fixpoint trimStart (s : jsstring) : jsstring :=
  match s with
  | [] => []
  | c :: s' => if isWhiteSpace c then trimStart s' else s
  end.

Definition trimEnd (s : jsstring) : jsstring := rev (trimStart (rev s)).

(** [s.trim()] *)
Definition trim (s : jsstring) : jsstring := trimEnd (trimStart s).

(** [s.split(sep)] for a one-code-unit separator: one piece more than the
    number of occurrences of [sep]; the empty string gives one empty piece. *)
Fixpoint split (sep : N) (s : jsstring) : list jsstring :=
  match s with
  | [] => [[]]
  | c :: s' =>
      if c =? sep then [] :: split sep s'
      else match split sep s' with
           | [] => [[c]]
           | p :: ps => (c :: p) :: ps
           end
  end.

(** Longest prefix satisfying [p], and the rest. *)
Fixpoint span (p : N → bool) (s : jsstring) : jsstring * jsstring :=
  match s with
  | [] => ([], [])
  | c :: s' =>
      if p c then let '(a, b) := span p s' in (c :: a, b) else ([], s)
  end.

Definition isDecimalDigit (c : N) : bool := (48 <=? c) && (c <=? 57).
Definition isBinaryDigit (c : N) : bool := (c =? 48) || (c =? 49).
Definition isOctalDigit (c : N) : bool := (48 <=? c) && (c <=? 55).
Definition isHexDigit (c : N) : bool :=
  isDecimalDigit c || ((65 <=? c) && (c <=? 70)) || ((97 <=? c) && (c <=? 102)).

(** One or more code units, all in the class [p]. *)
Definition digits1 (p : N → bool) (s : jsstring) : bool :=
  match s with
  | [] => false
  | _ => forallb p s
  end.

(** [ExponentPart] (optional): [e] or [E], an optional sign, digits. *)
Definition isExponentPartOpt (s : jsstring) : bool :=
  match s with
  | [] => true
  | e :: r =>
      ((e =? 101) || (e =? 69)) &&
      match r with
      | [] => false
      | sg :: r' =>
          if (sg =? 43) || (sg =? 45) then digits1 isDecimalDigit r'
          else digits1 isDecimalDigit r
      end
  end.

(** [StrUnsignedDecimalLiteral]: [Infinity], [d+ . d* exp?], [. d+ exp?]
    or [d+ exp?]. *)
Definition isStrUnsignedDecimalLiteral (s : jsstring) : bool :=
  if bool_decide (s = js "Infinity") then true
  else
    let '(d1, r) := span isDecimalDigit s in
    match r with
    | [] => negb (bool_decide (d1 = []))
    | c :: r2 =>
        if c =? 46 then
          let '(d2, r3) := span isDecimalDigit r2 in
          (negb (bool_decide (d1 = [])) || negb (bool_decide (d2 = [])))
          && isExponentPartOpt r3
        else negb (bool_decide (d1 = [])) && isExponentPartOpt r
    end.

(** [NonDecimalIntegerLiteral]: [0b], [0o], [0x] (either case) and digits. *)
Definition isNonDecimalIntegerLiteral (s : jsstring) : bool :=
  match s with
  | z :: k :: r =>
      (z =? 48) &&
      (if (k =? 98) || (k =? 66) then digits1 isBinaryDigit r
       else if (k =? 111) || (k =? 79) then digits1 isOctalDigit r
       else if (k =? 120) || (k =? 88) then digits1 isHexDigit r
       else false)
  | _ => false
  end.

(** [StrNumericLiteral]. *)
Definition isStrNumericLiteral (s : jsstring) : bool :=
  isNonDecimalIntegerLiteral s ||
  match s with
  | sg :: r =>
      if (sg =? 43) || (sg =? 45) then isStrUnsignedDecimalLiteral r
      else isStrUnsignedDecimalLiteral s
  | [] => false
  end.

(** [isNaN(Number(s))] for a string [s]: [StringToNumber] skips white space
    on both sides, maps the empty rest to [0], and yields [NaN] exactly
    when the rest is not a [StrNumericLiteral]. *)
Definition isNaN_Number (s : jsstring) : bool :=
  match trim s with
  | [] => false
  | t => negb (isStrNumericLiteral t)
  end.

(** Code-unit order, a concrete stand-in for a collation. *)
Fixpoint codeUnitCompare (a b : jsstring) : Z :=
  match a, b with
  | [], [] => 0%Z
  | [], _ :: _ => (-1)%Z
  | _ :: _, [] => 1%Z
  | x :: a', y :: b' =>
      if x <? y then (-1)%Z
      else if y <? x then 1%Z
      else codeUnitCompare a' b'
  end.

End JsStr.

Export JsStr.

(** ** Roster extractor *)

Module Excel.

(** A cell of the grid returned by [sheet_to_json(..., {header: 1})]: a
    blank ([null]/[undefined]) or a value, of which the extractor only
    looks at [toString()]. *)
Inductive Cell : Type :=
| CellBlank
| CellValue (text : jsstring).

(** [cell?.toString().trim()] *)
Definition cellVal (cell : Cell) : option jsstring :=
  match cell with
  | CellBlank => None
  | CellValue text => Some (trim text)
  end.

(** The condition of the [if] on a trimmed value:
    [val && val.length > 5 && val.split(' ').length >= 2 && isNaN(Number(val))]. *)
Definition passesFilter (val : jsstring) : bool :=
  negb (bool_decide (val = [])) &&
  (5 <? N.of_nat (length val)) &&
  (2 <=? N.of_nat (length (split 32 val))) &&
  isNaN_Number val.

(** Whether the extractor pushes the cell's value. *)
Definition isCandidate (cell : Cell) : bool :=
  match cellVal cell with
  | None => false
  | Some val => passesFilter val
  end.

(** The values pushed by the two nested [forEach] loops, in order. *)
Definition pushed (jsonData : list (list Cell)) : list jsstring :=
  flat_map (λ row,
    flat_map (λ cell,
      match cellVal cell with
      | Some val => if passesFilter val then [val] else []
      | None => []
      end) row) jsonData.

(** [Array.from(new Set(names))]: first occurrences, in insertion order. *)
Definition arrayFromSet (names : list jsstring) : list jsstring :=
  fold_left (λ acc n, if bool_decide (n ∈ acc) then acc else acc ++ [n]) names [].

Definition extractNamesFromExcel (jsonData : list (list Cell)) : list jsstring :=
  arrayFromSet (pushed jsonData).

(** The filter as the specification words it. Tokens are the maximal runs
    of non-white-space code units. *)
Fixpoint spec_tokens_from (cur : jsstring) (s : jsstring) : list jsstring :=
  match s with
  | [] => match cur with [] => [] | _ => [rev cur] end
  | c :: s' =>
      if isWhiteSpace c then
        match cur with
        | [] => spec_tokens_from [] s'
        | _ => rev cur :: spec_tokens_from [] s'
        end
      else spec_tokens_from (c :: cur) s'
  end.

Definition spec_tokens (s : jsstring) : list jsstring := spec_tokens_from [] s.

(** Specification wording: non-empty after trimming, more than 5
    characters, at least 2 white-space-separated tokens, not a number. *)
Definition spec_isCandidate (cell : Cell) : bool :=
  match cell with
  | CellBlank => false
  | CellValue text =>
      let val := trim text in
      negb (bool_decide (val = [])) &&
      (5 <? N.of_nat (length val)) &&
      (2 <=? N.of_nat (length (spec_tokens val))) &&
      isNaN_Number val
  end.

End Excel.

(** ** Reconciliation engine and review workflow *)

Module Engine.

Inductive AttendanceStatus : Type := PRESENT | ABSENT | UNEXPECTED.

Record Attendee : Type := {
  name : jsstring;
  status : AttendanceStatus;
  originalName : option jsstring
}.

Record ProcessingResult : Type := {
  present : list Attendee;
  absent : list Attendee;
  unexpected : list Attendee
}.

#[global] Instance AttendanceStatus_eq_dec : EqDecision AttendanceStatus.
Proof. solve_decision. Defined.

#[global] Instance Attendee_eq_dec : EqDecision Attendee.
Proof. solve_decision. Defined.

(** *** Array primitives *)

(** [arr[index]]: [undefined] (here [None]) outside [0 .. length-1]. *)
Definition arrayGet {A} (arr : list A) (index : Z) : option A :=
  if (index <? 0)%Z then None else arr !! Z.to_nat index.

(** [arr.filter((x, i) => p x i)], the callback seeing the index. *)
Fixpoint filterFrom {A} (p : A → nat → bool) (i : nat) (arr : list A) : list A :=
  match arr with
  | [] => []
  | x :: rest =>
      if p x i then x :: filterFrom p (S i) rest else filterFrom p (S i) rest
  end.

Definition arrayFilter {A} (p : A → nat → bool) (arr : list A) : list A :=
  filterFrom p 0 arr.

(** [Array.prototype.sort] with a comparator: the sort is stable, so with
    a consistent comparator the result is the one of a stable insertion
    sort ([x] goes before the first [y] with [cmp x y <= 0]). *)
Fixpoint sortInsert {A} (cmp : A → A → Z) (x : A) (l : list A) : list A :=
  match l with
  | [] => [x]
  | y :: l' =>
      if (cmp x y <=? 0)%Z then x :: y :: l' else y :: sortInsert cmp x l'
  end.

Definition arraySort {A} (cmp : A → A → Z) (l : list A) : list A :=
  foldr (sortInsert cmp) [] l.

(** [a || b] on strings, the left one possibly [undefined]. *)
Definition orElse (a : option jsstring) (b : jsstring) : jsstring :=
  match a with
  | None => b
  | Some [] => b
  | Some s => s
  end.

(** [{ ...m, status }] *)
Definition withStatus (s : AttendanceStatus) (m : Attendee) : Attendee :=
  {| name := name m; status := s; originalName := originalName m |}.

(** *** Component state *)

Record AppState : Type := {
  rawResults : option ProcessingResult;
  isReviewing : bool;
  finalResults : option ProcessingResult;
  selectedNames : gset jsstring;
  showBulkConfirm : bool;
  pendingStatus : option AttendanceStatus
}.

Definition setRawResults (v : option ProcessingResult) (st : AppState) : AppState :=
  {| rawResults := v; isReviewing := isReviewing st;
     finalResults := finalResults st; selectedNames := selectedNames st;
     showBulkConfirm := showBulkConfirm st; pendingStatus := pendingStatus st |}.

Definition setIsReviewing (v : bool) (st : AppState) : AppState :=
  {| rawResults := rawResults st; isReviewing := v;
     finalResults := finalResults st; selectedNames := selectedNames st;
     showBulkConfirm := showBulkConfirm st; pendingStatus := pendingStatus st |}.

Definition setFinalResults (v : option ProcessingResult) (st : AppState) : AppState :=
  {| rawResults := rawResults st; isReviewing := isReviewing st;
     finalResults := v; selectedNames := selectedNames st;
     showBulkConfirm := showBulkConfirm st; pendingStatus := pendingStatus st |}.

Definition setSelectedNames (v : gset jsstring) (st : AppState) : AppState :=
  {| rawResults := rawResults st; isReviewing := isReviewing st;
     finalResults := finalResults st; selectedNames := v;
     showBulkConfirm := showBulkConfirm st; pendingStatus := pendingStatus st |}.

Definition setShowBulkConfirm (v : bool) (st : AppState) : AppState :=
  {| rawResults := rawResults st; isReviewing := isReviewing st;
     finalResults := finalResults st; selectedNames := selectedNames st;
     showBulkConfirm := v; pendingStatus := pendingStatus st |}.

Definition setPendingStatus (v : option AttendanceStatus) (st : AppState) : AppState :=
  {| rawResults := rawResults st; isReviewing := isReviewing st;
     finalResults := finalResults st; selectedNames := selectedNames st;
     showBulkConfirm := showBulkConfirm st; pendingStatus := v |}.

(** The [useState] initial values. *)
Definition initialState : AppState :=
  {| rawResults := None; isReviewing := false; finalResults := None;
     selectedNames := ∅; showBulkConfirm := false; pendingStatus := None |}.

(** How a handler ends: it returns, or an exception escapes it. State
    setters called before the exception would still apply; none of the
    handlers below calls one before its last possible throw. *)
Inductive JsError : Type := TypeError.

Inductive Completion : Type :=
| Returned
| Thrown (e : JsError).

Definition Handler : Type := AppState → Completion * AppState.

Definition emptyResult : ProcessingResult :=
  {| present := []; absent := []; unexpected := [] |}.

(** The body of the [forEach] in [handleBulkStatusChange]. *)
Definition pushByStatus (acc : ProcessingResult) (a : Attendee) : ProcessingResult :=
  match status a with
  | PRESENT =>
      {| present := present acc ++ [a]; absent := absent acc;
         unexpected := unexpected acc |}
  | ABSENT =>
      {| present := present acc; absent := absent acc ++ [a];
         unexpected := unexpected acc |}
  | UNEXPECTED =>
      {| present := present acc; absent := absent acc;
         unexpected := unexpected acc ++ [a] |}
  end.

(** The bucket that holds the attendees of a status. *)
Definition bucket (s : AttendanceStatus) (r : ProcessingResult) : list Attendee :=
  match s with
  | PRESENT => present r
  | ABSENT => absent r
  | UNEXPECTED => unexpected r
  end.

(** [[...r.present, ...r.absent, ...r.unexpected]] *)
Definition allOf (r : ProcessingResult) : list Attendee :=
  present r ++ absent r ++ unexpected r.

Section Collation.

(** [a.localeCompare(b, 'ar')]: negative, zero or positive. *)
Variable localeCompare : jsstring → jsstring → Z.

Definition byName (a b : Attendee) : Z := localeCompare (name a) (name b).

(** [sortFn], defined alike in the three handlers that use it. *)
Definition sortFn (l : list Attendee) : list Attendee :=
  arraySort byName l.

(** The end of [runAnalysis], once the oracle has answered [res]. *)
Definition ingest (res : ProcessingResult) : Handler := λ st,
  (Returned,
   setIsReviewing true
     (setRawResults
        (Some {| present := sortFn (present res);
                 absent := sortFn (absent res);
                 unexpected := sortFn (unexpected res) |}) st)).

(** [rejectMatch]. Outside the bucket [rawResults.present[index]] is
    [undefined], and reading [match.name] while the argument of
    [setRawResults] is built throws a [TypeError]: no setter has run. *)
Definition rejectMatch (index : Z) : Handler := λ st,
  match rawResults st with
  | None => (Returned, st)
  | Some raw =>
      let match_ := arrayGet (present raw) index in
      let newPresent :=
        arrayFilter (λ _ i, negb (Z.of_nat i =? index)%Z) (present raw) in
      match match_ with
      | None => (Thrown TypeError, st)
      | Some m =>
          (Returned,
           setRawResults
             (Some {| present := newPresent;
                      absent :=
                        sortFn (absent raw ++
                                [{| name := name m; status := ABSENT;
                                    originalName := None |}]);
                      unexpected :=
                        sortFn (unexpected raw ++
                                [{| name := orElse (originalName m) [];
                                    status := UNEXPECTED;
                                    originalName := None |}]) |}) st)
      end
  end.

Definition finalizeReport : Handler := λ st,
  match rawResults st with
  | None => (Returned, st)
  | Some raw => (Returned, setIsReviewing false (setFinalResults (Some raw) st))
  end.

Definition toggleSelection (n : jsstring) : Handler := λ st,
  let next :=
    if bool_decide (n ∈ selectedNames st) then selectedNames st ∖ {[n]}
    else selectedNames st ∪ {[n]} in
  (Returned, setSelectedNames next st).

Definition initiateBulkChange (s : AttendanceStatus) : Handler := λ st,
  (Returned, setShowBulkConfirm true (setPendingStatus (Some s) st)).

(** The cancel button of the confirmation dialog. *)
Definition cancelBulkChange : Handler := λ st,
  (Returned, setShowBulkConfirm false st).

(** The clear button of the selection bar, [setSelectedNames(new Set())]. *)
Definition clearSelection : Handler := λ st,
  (Returned, setSelectedNames ∅ st).

Definition handleBulkStatusChange : Handler := λ st,
  match finalResults st, pendingStatus st with
  | Some fin, Some target =>
      let all := allOf fin in
      let moved := filter (λ a, name a ∈ selectedNames st) all in
      let remaining := filter (λ a, name a ∉ selectedNames st) all in
      let nextResults :=
        fold_left pushByStatus
          (remaining ++ (withStatus target <$> moved)) emptyResult in
      (Returned,
       setPendingStatus None
         (setShowBulkConfirm false
            (setSelectedNames ∅
               (setFinalResults
                  (Some {| present := sortFn (present nextResults);
                           absent := sortFn (absent nextResults);
                           unexpected := sortFn (unexpected nextResults) |})
                  st))))
  | _, _ => (Returned, st)
  end.

(** [resetApp]; [confirmed] is the answer of [window.confirm]. *)
Definition resetApp (confirmed : bool) : Handler := λ st,
  if confirmed then (Returned, initialState) else (Returned, st).

(** *** Runs of the component *)

Inductive Event : Type :=
| EIngest (res : ProcessingResult)
| ERejectMatch (index : Z)
| EFinalize
| EToggle (n : jsstring)
| EInitiateBulk (s : AttendanceStatus)
| ECancelBulk
| EConfirmBulk
| EReset (confirmed : bool)
| EClearSelection.

Definition handle (e : Event) : Handler :=
  match e with
  | EIngest res => ingest res
  | ERejectMatch index => rejectMatch index
  | EFinalize => finalizeReport
  | EToggle n => toggleSelection n
  | EInitiateBulk s => initiateBulkChange s
  | ECancelBulk => cancelBulkChange
  | EConfirmBulk => handleBulkStatusChange
  | EReset c => resetApp c
  | EClearSelection => clearSelection
  end.

(** The state after a sequence of events, from [st]. *)
Definition run (es : list Event) (st : AppState) : AppState :=
  fold_left (λ s e, (handle e s).2) es st.

(** Order of two attendees in a sorted bucket. *)
Definition nameLe (a b : Attendee) : Prop := (byName a b <= 0)%Z.

Definition bucketsSorted (r : ProcessingResult) : Prop :=
  Sorted nameLe (present r) ∧ Sorted nameLe (absent r) ∧
  Sorted nameLe (unexpected r).

(** The buckets of the session and of the finalized classification,
    whichever exist, are sorted. *)
Definition stateSorted (st : AppState) : Prop :=
  ∀ r : ProcessingResult,
    rawResults st = Some r ∨ finalResults st = Some r → bucketsSorted r.

End Collation.

(** What a bulk change with selection [sel] and target [target] does to
    one attendee: [moved] ones get the target status, the others stay. *)
Definition retarget (sel : gset jsstring) (target : AttendanceStatus) (a : Attendee) : Attendee :=
  if bool_decide (name a ∈ sel) then withStatus target a else a.

(** Names of a bucket, and the names of the three buckets together. *)
Definition names (l : list Attendee) : list jsstring := name <$> l.

(** No name appears in two buckets. *)
Definition noSharedName (r : ProcessingResult) : Prop :=
  ∀ n : jsstring,
    ¬ (n ∈ names (present r) ∧ n ∈ names (absent r)) ∧
    ¬ (n ∈ names (present r) ∧ n ∈ names (unexpected r)) ∧
    ¬ (n ∈ names (absent r) ∧ n ∈ names (unexpected r)).

(** No bucket holds a name twice. *)
Definition noDuplicateName (r : ProcessingResult) : Prop :=
  NoDup (names (present r)) ∧ NoDup (names (absent r)) ∧
  NoDup (names (unexpected r)).

Definition namesDistinct (r : ProcessingResult) : Prop :=
  noSharedName r ∧ noDuplicateName r.

End Engine.

Import Excel Engine.

(** ** Sample data *)

Module Samples.

(** The match of the specification's round trip: roster name [A], seen
    in the session as [A-zoom]. *)
Definition matchA : Attendee :=
  {| name := js "A"; status := PRESENT; originalName := Some (js "A-zoom") |}.

(** A match whose two forms are the same string. *)
Definition matchSame : Attendee :=
  {| name := js "A"; status := PRESENT; originalName := Some (js "A") |}.

(** A present attendee without an originalName. *)
Definition matchBare : Attendee :=
  {| name := js "B"; status := PRESENT; originalName := None |}.

Definition absentC : Attendee :=
  {| name := js "C"; status := ABSENT; originalName := None |}.

Definition unexpectedD : Attendee :=
  {| name := js "D"; status := UNEXPECTED; originalName := None |}.

Definition reviewing (raw : ProcessingResult) : AppState :=
  {| rawResults := Some raw; isReviewing := true; finalResults := None;
     selectedNames := ∅; showBulkConfirm := false; pendingStatus := None |}.

Definition rawA : ProcessingResult :=
  {| present := [matchA]; absent := []; unexpected := [] |}.

Definition rawSame : ProcessingResult :=
  {| present := [matchSame]; absent := []; unexpected := [] |}.

Definition rawBare : ProcessingResult :=
  {| present := [matchBare]; absent := [absentC]; unexpected := [unexpectedD] |}.

(** An oracle answer, buckets not yet sorted. *)
Definition oracleAnswer : ProcessingResult :=
  {| present := [matchBare; matchA]; absent := [absentC]; unexpected := [unexpectedD] |}.

Definition finalABCD : ProcessingResult :=
  {| present := [matchA; matchBare]; absent := [absentC]; unexpected := [unexpectedD] |}.

(** A finalized report with [A] and [D] selected and a move to Absent
    staged. *)
Definition staged : AppState :=
  {| rawResults := Some finalABCD; isReviewing := false;
     finalResults := Some finalABCD;
     selectedNames := {[ js "A" ]} ∪ {[ js "D" ]};
     showBulkConfirm := true; pendingStatus := Some ABSENT |}.

(** A cell whose two words are separated by a line break. *)
Definition cellLineBreak : Cell := CellValue (js "Ali" ++ [10] ++ js "Hassan").

(** The same two words separated by a no-break space (U+00A0), and by a
    space (U+0020). *)
Definition cellNoBreakSpace : Cell := CellValue (js "Ali" ++ [160] ++ js "Hassan").
Definition cellSpace : Cell := CellValue (js "Ali Hassan").

End Samples.

Import Samples.

(** ** Oracle adapter: what surrounds the two model calls *)

Module Gemini.

(** [s.startsWith(t)] *)
Fixpoint startsWith (s t : jsstring) : bool :=
  match t, s with
  | [], _ => true
  | _ :: _, [] => false
  | y :: t', x :: s' => (x =? y) && startsWith s' t'
  end.

(** [s.includes(t)]: [t] occurs in [s] as a run of consecutive code units. *)
Fixpoint includes (s t : jsstring) : bool :=
  startsWith s t ||
  match s with
  | [] => false
  | _ :: s' => includes s' t
  end.

(** The image payload handed to the model,
    [base64Data.includes(',') ? base64Data.split(',')[1] : base64Data];
    [None] stands for [undefined]. *)
Definition imageData (base64Data : jsstring) : option jsstring :=
  if includes base64Data [44] then split 44 base64Data !! 1%nat
  else Some base64Data.

(** How the [generateContent] call of [extractNamesFromImage] ends: it
    throws, or it answers with [response.text], possibly [undefined]. *)
Inductive Reply : Type :=
| CallFailed
| Answer (text : option jsstring).

(** [(response.text || "").split("\n").map(n => n.trim()).filter(n => n.length > 2)] *)
Definition answerNames (text : option jsstring) : list jsstring :=
  filter (λ n : jsstring, (2 < length n)%nat) (trim <$> split 10 (orElse text [])).

(** [extractNamesFromImage], given how the model call ended; the [catch]
    turns a failure into the empty list. *)
Definition extractNamesFromImage (reply : Reply) : list jsstring :=
  match reply with
  | CallFailed => []
  | Answer text => answerNames text
  end.

(** [zoomNames.add(n)] on a [Set], kept in insertion order. *)
Definition setAdd (acc : list jsstring) (n : jsstring) : list jsstring :=
  if bool_decide (n ∈ acc) then acc else acc ++ [n].

(** The loop of [processAttendance] over the screenshots: [replies] are
    the ends of the model calls, one per screenshot, in order; the result
    is [Array.from(zoomNames)]. *)
Definition zoomNames (replies : list Reply) : list jsstring :=
  fold_left (λ acc reply, fold_left setAdd (extractNamesFromImage reply) acc)
    replies [].

(** An item of [res.present], and the parsed answer of the matching call. *)
Record Match : Type := {
  matchName : jsstring;
  matchOriginalName : option jsstring
}.

Record MatchResponse : Type := {
  resPresent : list Match;
  resAbsent : list jsstring;
  resUnexpected : list jsstring
}.

(** The [return] of [processAttendance]: each item gets the status of its
    array. *)
Definition toProcessingResult (res : MatchResponse) : ProcessingResult :=
  {| present :=
       (λ p, {| name := matchName p; status := PRESENT;
                originalName := matchOriginalName p |}) <$> resPresent res;
     absent :=
       (λ n, {| name := n; status := ABSENT; originalName := None |}) <$> resAbsent res;
     unexpected :=
       (λ n, {| name := n; status := UNEXPECTED; originalName := None |})
         <$> resUnexpected res |}.

End Gemini.

(** ** Report: labels, export rows, search view, and which view is shown *)

Module Report.

Import Gemini.

Definition labelPresent : jsstring := [1581; 1575; 1590; 1585].
Definition labelAbsent : jsstring := [1594; 1575; 1574; 1576].
Definition labelUnexpected : jsstring :=
  [1582; 1575; 1585; 1580; 32; 1575; 1604; 1603; 1588; 1601].
Definition labelUndefined : jsstring :=
  [1594; 1610; 1585; 32; 1605; 1581; 1583; 1583].

(** [getStatusLabel]; the [default] branch of the [switch] is never taken
    for a value of the enum. *)
Definition getStatusLabel (status : option AttendanceStatus) : jsstring :=
  match status with
  | None => labelUndefined
  | Some PRESENT => labelPresent
  | Some ABSENT => labelAbsent
  | Some UNEXPECTED => labelUnexpected
  end.

(** The first row of the exported sheet. *)
Definition headerRow : list jsstring :=
  [[1575; 1604; 1575; 1587; 1605];
   [1575; 1604; 1581; 1575; 1604; 1577];
   [1575; 1604; 1575; 1587; 1605; 32; 1575; 1604; 1571; 1589; 1604; 1610; 32;
    1601; 1610; 32; 1586; 1608; 1608; 1605]].

(** The array [data] that [exportExcel] hands to the sheet writer; [None]
    when the handler returns before building it. *)
Definition exportData (st : AppState) : option (list (list jsstring)) :=
  match finalResults st with
  | None => None
  | Some fin =>
      Some (headerRow ::
            ((λ p, [name p; labelPresent; orElse (originalName p) []]) <$> present fin) ++
            ((λ a, [name a; labelAbsent; []]) <$> absent fin) ++
            ((λ u, [name u; labelUnexpected; []]) <$> unexpected fin))
  end.

Inductive View : Type := UploadView | ReviewView | ReportView | NoView.

#[global] Instance View_eq_dec : EqDecision View.
Proof. solve_decision. Defined.

Section Search.

(** [String.prototype.toLowerCase]. *)
Variable toLowerCase : jsstring → jsstring.

(** [filterFn] of [filteredDisplay], for the lower-cased term. *)
Definition filterFn (term : jsstring) (a : Attendee) : bool :=
  includes (toLowerCase (name a)) term ||
  match originalName a with
  | Some o => includes (toLowerCase o) term
  | None => false
  end.

(** [filteredDisplay], the memoized view of the finalized classification
    for the current search term. *)
Definition filteredDisplay (searchTerm : jsstring) (st : AppState) : option ProcessingResult :=
  match finalResults st with
  | None => None
  | Some fin =>
      let term := toLowerCase searchTerm in
      Some {| present := filter (λ a, filterFn term a = true) (present fin);
              absent := filter (λ a, filterFn term a = true) (absent fin);
              unexpected := filter (λ a, filterFn term a = true) (unexpected fin) |}
  end.

(** The chain of conditionals in the [return] of the component: which of
    the three views is rendered; [NoView] is the final [null]. *)
Definition view (searchTerm : jsstring) (st : AppState) : View :=
  match rawResults st, finalResults st with
  | None, None => UploadView
  | raw, fin =>
      if isReviewing st && (if raw is Some _ then true else false) then ReviewView
      else
        match fin, filteredDisplay searchTerm st with
        | Some _, Some _ => ReportView
        | _, _ => NoView
        end
  end.

End Search.

(** Every attendee of a bucket carries the status of that bucket. *)
Definition statusConsistent (r : ProcessingResult) : Prop :=
  ∀ (s : AttendanceStatus) (a : Attendee), a ∈ bucket s r → status a = s.

(** The same, for the session and the finalized classification of a
    state, whichever exist. *)
Definition stateConsistent (st : AppState) : Prop :=
  ∀ r : ProcessingResult,
    rawResults st = Some r ∨ finalResults st = Some r → statusConsistent r.

(** An event that, when it stores an oracle answer, stores one built by
    [processAttendance]. *)
Definition fromAdapter (e : Event) : Prop :=
  ∀ res : ProcessingResult,
    e = EIngest res → ∃ r : MatchResponse, res = toProcessingResult r.

(** The number of roster entries the report shows in its headline,
    [present.length + absent.length]. *)
Definition rosterCount (r : ProcessingResult) : nat :=
  (length (present r) + length (absent r))%nat.

End Report.

(** ** The page: inputs, analysis run, and what the rendered page offers *)

Module Workflow.

Import Gemini Report.

Inductive SourceMode : Type := excel | image.

Inductive MatchSensitivity : Type := STRICT | BALANCED | FLEXIBLE.

(** A browser [File], told apart by an identifier. *)
Inductive File : Type := MkFile (id : nat).

(** The state of the component besides the six variables of [AppState];
    [progressLog], which no condition reads, is left out. *)
Record Page : Type := {
  core : AppState;
  sourceMode : SourceMode;
  excelFile : option File;
  officialImage : option File;
  excelNamesCount : nat;
  screenshots : list File;
  loading : bool;
  sensitivity : MatchSensitivity;
  error : option jsstring;
  searchTerm : jsstring
}.

Definition setCore (v : AppState) (pg : Page) : Page :=
  {| core := v; sourceMode := sourceMode pg; excelFile := excelFile pg;
     officialImage := officialImage pg; excelNamesCount := excelNamesCount pg;
     screenshots := screenshots pg; loading := loading pg;
     sensitivity := sensitivity pg; error := error pg; searchTerm := searchTerm pg |}.

Definition setSourceMode (v : SourceMode) (pg : Page) : Page :=
  {| core := core pg; sourceMode := v; excelFile := excelFile pg;
     officialImage := officialImage pg; excelNamesCount := excelNamesCount pg;
     screenshots := screenshots pg; loading := loading pg;
     sensitivity := sensitivity pg; error := error pg; searchTerm := searchTerm pg |}.

Definition setExcelFile (v : option File) (pg : Page) : Page :=
  {| core := core pg; sourceMode := sourceMode pg; excelFile := v;
     officialImage := officialImage pg; excelNamesCount := excelNamesCount pg;
     screenshots := screenshots pg; loading := loading pg;
     sensitivity := sensitivity pg; error := error pg; searchTerm := searchTerm pg |}.

Definition setOfficialImage (v : option File) (pg : Page) : Page :=
  {| core := core pg; sourceMode := sourceMode pg; excelFile := excelFile pg;
     officialImage := v; excelNamesCount := excelNamesCount pg;
     screenshots := screenshots pg; loading := loading pg;
     sensitivity := sensitivity pg; error := error pg; searchTerm := searchTerm pg |}.

Definition setExcelNamesCount (v : nat) (pg : Page) : Page :=
  {| core := core pg; sourceMode := sourceMode pg; excelFile := excelFile pg;
     officialImage := officialImage pg; excelNamesCount := v;
     screenshots := screenshots pg; loading := loading pg;
     sensitivity := sensitivity pg; error := error pg; searchTerm := searchTerm pg |}.

Definition setScreenshots (v : list File) (pg : Page) : Page :=
  {| core := core pg; sourceMode := sourceMode pg; excelFile := excelFile pg;
     officialImage := officialImage pg; excelNamesCount := excelNamesCount pg;
     screenshots := v; loading := loading pg;
     sensitivity := sensitivity pg; error := error pg; searchTerm := searchTerm pg |}.

Definition setLoading (v : bool) (pg : Page) : Page :=
  {| core := core pg; sourceMode := sourceMode pg; excelFile := excelFile pg;
     officialImage := officialImage pg; excelNamesCount := excelNamesCount pg;
     screenshots := screenshots pg; loading := v;
     sensitivity := sensitivity pg; error := error pg; searchTerm := searchTerm pg |}.

Definition setError (v : option jsstring) (pg : Page) : Page :=
  {| core := core pg; sourceMode := sourceMode pg; excelFile := excelFile pg;
     officialImage := officialImage pg; excelNamesCount := excelNamesCount pg;
     screenshots := screenshots pg; loading := loading pg;
     sensitivity := sensitivity pg; error := v; searchTerm := searchTerm pg |}.

(** The [useState] initial values. *)
Definition initialPage : Page :=
  {| core := initialState; sourceMode := excel; excelFile := None;
     officialImage := None; excelNamesCount := 0; screenshots := [];
     loading := false; sensitivity := BALANCED; error := None; searchTerm := [] |}.

(** The messages the handlers pass to [setError]. *)
Definition msgMissingInputs : jsstring :=
  [1610; 1585; 1580; 1609; 32; 1575; 1604; 1578; 1571; 1603; 1583; 32; 1605; 1606;
   32; 1585; 1601; 1593; 32; 1603; 1588; 1601; 32; 1575; 1604; 1571; 1587; 1605;
   1575; 1569; 32; 1575; 1604; 1585; 1587; 1605; 1610; 32; 1608; 1604; 1602; 1591;
   1575; 1578; 32; 1586; 1608; 1608; 1605; 32; 1571; 1608; 1604; 1575; 1611; 46].

Definition msgNoNames : jsstring :=
  [1604; 1605; 32; 1606; 1578; 1605; 1603; 1606; 32; 1605; 1606; 32; 1575; 1604;
   1593; 1579; 1608; 1585; 32; 1593; 1604; 1609; 32; 1571; 1610; 32; 1571; 1587;
   1605; 1575; 1569; 46; 32; 1610; 1585; 1580; 1609; 32; 1575; 1604; 1578; 1571;
   1603; 1583; 32; 1605; 1606; 32; 1580; 1608; 1583; 1577; 32; 1575; 1604; 1605;
   1604; 1601; 32; 1571; 1608; 32; 1575; 1604; 1589; 1608; 1585; 1577; 46].

Definition msgExcelRead : jsstring :=
  [1582; 1591; 1571; 32; 1601; 1610; 32; 1602; 1585; 1575; 1569; 1577; 32; 1605;
   1604; 1601; 32; 1575; 1604; 1573; 1603; 1587; 1610; 1604; 1548; 32; 1610; 1585;
   1580; 1609; 32; 1575; 1604; 1578; 1571; 1603; 1583; 32; 1605; 1606; 32; 1571;
   1606; 32; 1575; 1604; 1605; 1604; 1601; 32; 1604; 1610; 1587; 32; 1605; 1581;
   1605; 1610; 1575; 1611; 46].

Definition msgUnexpected : jsstring :=
  [1581; 1583; 1579; 32; 1582; 1591; 1571; 32; 1594; 1610; 1585; 32; 1605; 1578;
   1608; 1602; 1593; 46; 32; 1578; 1571; 1603; 1583; 32; 1605; 1606; 32; 1575;
   1578; 1589; 1575; 1604; 32; 1575; 1604; 1573; 1606; 1578; 1585; 1606; 1578; 32;
   1608; 1589; 1604; 1575; 1581; 1610; 1577; 32; 1605; 1601; 1578; 1575; 1581; 32;
   65; 80; 73; 46].

(** How a promise ends; a rejection is kept by the [message] of the
    value it rejects with, [None] when that value has none. A promise may
    also never settle: [extractNamesFromExcel] sets no [onerror] on its
    reader, so a file that cannot be read leaves its promise pending, and
    nothing after the [await] on it ever runs. *)
Inductive Settled (A : Type) : Type :=
| Resolved (a : A)
| Rejected (message : option jsstring)
| Pending.

Arguments Resolved {A} a.
Arguments Rejected {A} message.
Arguments Pending {A}.

(** The asynchronous collaborators of [runAnalysis], by their results:
    [excelNames] is [extractNamesFromExcel], [imageNames] is
    [extractNamesFromImage] and [attendance] is [processAttendance], as
    imported from the services. [fileToBase64] rejects with the reader's
    error event, which has no [message]; [extractNamesFromImage] catches
    its own failures and so always resolves. *)
Record Env : Type := {
  excelNames : File → Settled (list jsstring);
  fileToBase64 : File → option jsstring;
  imageNames : jsstring → bool → list jsstring;
  attendance :
    list jsstring → list jsstring → MatchSensitivity → Settled ProcessingResult
}.

(** [sourceMode === 'excel' ? !!excelFile : !!officialImage] *)
Definition hasSource (pg : Page) : bool :=
  match sourceMode pg with
  | excel => if excelFile pg is Some _ then true else false
  | image => if officialImage pg is Some _ then true else false
  end.

(** [Promise.all(screenshots.map(fileToBase64))]: all the strings, or a
    rejection (always one without a message). *)
Fixpoint allBase64 (env : Env) (files : list File) : option (list jsstring) :=
  match files with
  | [] => Some []
  | f :: rest =>
      match fileToBase64 env f, allBase64 env rest with
      | Some b64, Some more => Some (b64 :: more)
      | _, _ => None
      end
  end.

(** The official names read inside the [try] of [runAnalysis]. *)
Definition officialNamesOf (env : Env) (pg : Page) : Settled (list jsstring) :=
  match sourceMode pg, excelFile pg, officialImage pg with
  | excel, Some f, _ => excelNames env f
  | image, _, Some f =>
      match fileToBase64 env f with
      | Some b64 => Resolved (imageNames env b64 true)
      | None => Rejected None
      end
  | _, _, _ => Resolved []
  end.

(** The check at the head of [runAnalysis],
    [!hasSource || screenshots.length === 0]. *)
Definition inputsMissing (pg : Page) : bool :=
  negb (hasSource pg) || (if screenshots pg is [] then true else false).

(** The body of the [try] of [runAnalysis] up to the answer of
    [processAttendance]: the answer, or what the [catch] receives. *)
Definition analysis (env : Env) (pg : Page) : Settled ProcessingResult :=
  match officialNamesOf env pg with
  | Pending => Pending
  | Rejected m => Rejected m
  | Resolved [] => Rejected (Some msgNoNames)
  | Resolved officialNames =>
      match allBase64 env (screenshots pg) with
      | None => Rejected None
      | Some zoomImagesB64 =>
          attendance env officialNames zoomImagesB64 (sensitivity pg)
      end
  end.

Section Collation.

Variable localeCompare : jsstring → jsstring → Z.

(** The part of [runAnalysis] that runs at the click, up to its first
    [await]: the refusal, or the loading flag set and the error cleared. *)
Definition startAnalysis (pg : Page) : Page :=
  if inputsMissing pg then setError (Some msgMissingInputs) pg
  else setError None (setLoading true pg).

(** The rest of [runAnalysis], which runs once the awaited steps have
    ended with [outcome], on the page as it is by then: the setters of the
    [try], or of the [catch], and the [finally]; nothing if a step never
    settles. *)
Definition settleAnalysis (outcome : Settled ProcessingResult) (pg : Page) : Page :=
  match outcome with
  | Resolved res => setLoading false (setCore (ingest localeCompare res (core pg)).2 pg)
  | Rejected m => setLoading false (setError (Some (orElse m msgUnexpected)) pg)
  | Pending => pg
  end.

(** [runAnalysis] when no other handler runs between its click and its
    end; the awaited steps are decided by the page at the click. *)
Definition runAnalysis (env : Env) (pg : Page) : Page :=
  if inputsMissing pg then startAnalysis pg
  else settleAnalysis (analysis env pg) (startAnalysis pg).

(** The part of [handleExcelUpload] that runs at the change of the input,
    up to its [await]; [files] is [e.target.files]. *)
Definition startExcelUpload (files : list File) (pg : Page) : Page :=
  match files with
  | [] => pg
  | file :: _ => setError None (setOfficialImage None (setExcelFile (Some file) pg))
  end.

(** The rest of [handleExcelUpload], which runs once the reading of the
    sheet has ended with [outcome], on the page as it is by then. *)
Definition settleExcelUpload (outcome : Settled (list jsstring)) (pg : Page) : Page :=
  match outcome with
  | Resolved names => setExcelNamesCount (length names) pg
  | Rejected _ => setError (Some msgExcelRead) pg
  | Pending => pg
  end.

(** [handleExcelUpload] when no other handler runs between the change of
    the input and the end of the reading. *)
Definition handleExcelUpload (env : Env) (files : list File) (pg : Page) : Page :=
  match files with
  | [] => pg
  | file :: _ => settleExcelUpload (excelNames env file) (startExcelUpload files pg)
  end.

(** [handleOfficialImageUpload]: acts when a first file was chosen. *)
Definition handleOfficialImageUpload (files : list File) (pg : Page) : Page :=
  match files with
  | [] => pg
  | file :: _ => setError None (setExcelFile None (setOfficialImage (Some file) pg))
  end.

(** [handleScreenshotsUpload]: the chosen files, none included, are
    appended to the ones already there. *)
Definition handleScreenshotsUpload (files : list File) (pg : Page) : Page :=
  setError None (setScreenshots (screenshots pg ++ files) pg).

(** [resetApp] on the whole page; [sensitivity] is not among the variables
    it resets. *)
Definition resetPage (confirmed : bool) (pg : Page) : Page :=
  if confirmed then
    {| core := (resetApp confirmed (core pg)).2; sourceMode := excel;
       excelFile := None; officialImage := None; excelNamesCount := 0;
       screenshots := []; loading := false; sensitivity := sensitivity pg;
       error := None; searchTerm := [] |}
  else pg.

(** What the user can do to the page. *)
Inductive Click : Type :=
| ChooseMode (m : SourceMode)
| UploadOfficial (files : list File)
| UploadScreenshots (files : list File)
| StartAnalysis
| Reject (index : nat)
| Finalize
| Toggle (n : jsstring)
| MoveTo (s : AttendanceStatus)
| ClearSelection
| CancelBulk
| ConfirmBulk
| Reset (confirmed : bool).

(** What a handler is waiting for between its start and its end: the
    reading of the sheet in [handleExcelUpload], the awaited steps of the
    [try] in [runAnalysis]; each by how it ends. *)
Inductive Awaited : Type :=
| Reading (outcome : Settled (list jsstring))
| Analysing (outcome : Settled ProcessingResult).

(** The handler a click runs, on the core state or on the page; of the two
    asynchronous handlers the part that runs at the click. *)
Definition onCore (h : Handler) (pg : Page) : Completion * Page :=
  ((h (core pg)).1, setCore (h (core pg)).2 pg).

Definition click (c : Click) (pg : Page) : Completion * Page :=
  match c with
  | ChooseMode m => (Returned, setSourceMode m pg)
  | UploadOfficial files =>
      (Returned,
       match sourceMode pg with
       | excel => startExcelUpload files pg
       | image => handleOfficialImageUpload files pg
       end)
  | UploadScreenshots files => (Returned, handleScreenshotsUpload files pg)
  | StartAnalysis => (Returned, startAnalysis pg)
  | Reject index => onCore (rejectMatch localeCompare (Z.of_nat index)) pg
  | Finalize => onCore finalizeReport pg
  | Toggle n => onCore (toggleSelection n) pg
  | MoveTo s => onCore (initiateBulkChange s) pg
  | ClearSelection => onCore clearSelection pg
  | CancelBulk => onCore cancelBulkChange pg
  | ConfirmBulk => onCore (handleBulkStatusChange localeCompare) pg
  | Reset confirmed => (Returned, resetPage confirmed pg)
  end.

(** What the handler of a click goes on to wait for, if anything. *)
Definition awaits (env : Env) (c : Click) (pg : Page) : list Awaited :=
  match c, sourceMode pg with
  | UploadOfficial (file :: _), excel => [Reading (excelNames env file)]
  | StartAnalysis, _ => if inputsMissing pg then [] else [Analysing (analysis env pg)]
  | _, _ => []
  end.

(** The rest of a handler, run when what it waited for has ended. *)
Definition settle (job : Awaited) (pg : Page) : Page :=
  match job with
  | Reading outcome => settleExcelUpload outcome pg
  | Analysing outcome => settleAnalysis outcome pg
  end.

(** Whether what a handler waits for ever ends. *)
Definition settles (job : Awaited) : bool :=
  match job with
  | Reading Pending | Analysing Pending => false
  | _ => true
  end.

Variable toLowerCase : jsstring → jsstring.

(** The names next to which the report renders a checkbox. *)
Definition displayedNames (pg : Page) : list jsstring :=
  match filteredDisplay toLowerCase (searchTerm pg) (core pg) with
  | None => []
  | Some shown => names (allOf shown)
  end.

(** Whether the rendered page has the control for a click: the inputs and
    the start button (disabled while loading) in the upload view; the
    approve button and one reject button per row of the present bucket in
    the review view; the checkboxes, the reset button and, with a
    non-empty selection, the two move buttons and the clear button in the
    report view; the two buttons of the dialog while it is open. *)
Definition offered (c : Click) (pg : Page) : bool :=
  let v := view toLowerCase (searchTerm pg) (core pg) in
  match c with
  | ChooseMode _ | UploadOfficial _ | UploadScreenshots _ =>
      bool_decide (v = UploadView)
  | StartAnalysis => bool_decide (v = UploadView) && negb (loading pg)
  | Reject index =>
      bool_decide (v = ReviewView) &&
      match rawResults (core pg) with
      | Some raw => bool_decide (index < length (present raw))%nat
      | None => false
      end
  | Finalize => bool_decide (v = ReviewView)
  | Toggle n => bool_decide (v = ReportView) && bool_decide (n ∈ displayedNames pg)
  | MoveTo s =>
      bool_decide (v = ReportView) &&
      negb (bool_decide (selectedNames (core pg) = ∅)) &&
      match s with
      | PRESENT | ABSENT => true
      | UNEXPECTED => false
      end
  | ClearSelection =>
      bool_decide (v = ReportView) && negb (bool_decide (selectedNames (core pg) = ∅))
  | CancelBulk | ConfirmBulk => showBulkConfirm (core pg)
  | Reset _ => bool_decide (v = ReportView)
  end.

(** What holds of the inputs between any two moves of a session. *)
Definition inputsInv (pg : Page) : Prop :=
  (excelFile pg = None ∨ officialImage pg = None) ∧
  searchTerm pg = [] ∧
  sensitivity pg = BALANCED.

(** What holds of the six core variables between any two moves of a
    session. *)
Definition coreInv (st : AppState) : Prop :=
  (finalResults st = None → rawResults st ≠ None → isReviewing st = true) ∧
  (is_Some (finalResults st) → isReviewing st = false ∧ is_Some (rawResults st)) ∧
  pendingStatus st ≠ Some UNEXPECTED ∧
  (showBulkConfirm st = true →
     is_Some (finalResults st) ∧ is_Some (pendingStatus st)) ∧
  (∀ n : jsstring, n ∈ selectedNames st →
     ∃ fin, finalResults st = Some fin ∧ n ∈ names (allOf fin)).

Definition pageInv (pg : Page) : Prop := inputsInv pg ∧ coreInv (core pg).

(** The page together with the handlers that are between their start and
    their end, each by what it waits for. *)
Record Live : Type := {
  page : Page;
  inFlight : list Awaited
}.

Definition initialLive : Live := {| page := initialPage; inFlight := [] |}.

(** What happens in a session at the page: the user clicks, or what the
    handler at position [i] among those in flight waits for ends. *)
Inductive Move : Type :=
| User (c : Click)
| Settles (i : nat).

(** One move. A click acts if the page offers its control and is lost
    otherwise; the handler it starts goes in flight if it has an [await].
    When what a handler in flight waits for ends, the rest of the handler
    runs on the page as it is by then; a handler whose promise never
    settles stays in flight. *)
Definition act (env : Env) (lv : Live) (mv : Move) : Live :=
  match mv with
  | User c =>
      if offered c (page lv) then
        {| page := (click c (page lv)).2;
           inFlight := inFlight lv ++ awaits env c (page lv) |}
      else lv
  | Settles i =>
      match inFlight lv !! i with
      | Some job =>
          if settles job then
            {| page := settle job (page lv); inFlight := delete i (inFlight lv) |}
          else lv
      | None => lv
      end
  end.

Definition sessionLive (env : Env) (ms : list Move) : Live :=
  fold_left (act env) ms initialLive.

(** The page after a session. *)
Definition session (env : Env) (ms : list Move) : Page :=
  page (sessionLive env ms).

(** The number of analysis runs among the handlers in flight. *)
Fixpoint analyses (jobs : list Awaited) : nat :=
  match jobs with
  | [] => 0
  | Analysing _ :: rest => S (analyses rest)
  | Reading _ :: rest => analyses rest
  end.

(** What holds between any two moves of a session. *)
Definition liveInv (lv : Live) : Prop :=
  pageInv (page lv) ∧
  (analyses (inFlight lv) <= 1)%nat ∧
  (analyses (inFlight lv) ≠ 0%nat →
     loading (page lv) = true ∧
     rawResults (core (page lv)) = None ∧ finalResults (core (page lv)) = None).

End Collation.

End Workflow.

Import Gemini Report Workflow.

(** ** More sample data *)

Module MoreSamples.

(** Lower-casing of the ASCII letters, what [toLowerCase] does on ASCII
    text. *)
Definition asciiLower (s : jsstring) : jsstring :=
  map (λ c, if (65 <=? c) && (c <=? 90) then c + 32 else c) s.

(** A sheet with two names, and a second one that repeats the first name
    with spaces around it. *)
Definition sheetTwoNames : list (list Cell) :=
  [[CellValue (js "Ali Hassan"); CellBlank; CellValue (js "Omar Said")]].

Definition sheetRepeat : list (list Cell) :=
  [[CellValue (js "  Ali Hassan ")]].

(** The two parts of a data URL. *)
Definition urlHeader : jsstring := js "data:image/png;base64".
Definition urlPayload : jsstring := js "iVBORw0KGgo=".

(** A parsed answer of the matching call. *)
Definition response : MatchResponse :=
  {| resPresent := [{| matchName := js "B"; matchOriginalName := Some (js "B-zoom") |};
                    {| matchName := js "A"; matchOriginalName := Some (js "A-zoom") |}];
     resAbsent := [js "C"];
     resUnexpected := [js "D"] |}.

(** The staged state of the samples, with nothing selected. *)
Definition stagedNothing : AppState :=
  {| rawResults := Some finalABCD; isReviewing := false;
     finalResults := Some finalABCD; selectedNames := ∅;
     showBulkConfirm := true; pendingStatus := Some ABSENT |}.

(** Collaborators that all succeed, and ones whose sheet has no name. *)
Definition envAnswers : Env :=
  {| excelNames := λ _, Resolved [js "Ali Hassan"; js "Omar Said"];
     fileToBase64 := λ _, Some (urlHeader ++ [44] ++ urlPayload);
     imageNames := λ _ _, [js "Ali Hassan"];
     attendance := λ _ _ _, Resolved (toProcessingResult response) |}.

Definition envNoNames : Env :=
  {| excelNames := λ _, Resolved [];
     fileToBase64 := λ _, Some (urlHeader ++ [44] ++ urlPayload);
     imageNames := λ _ _, [];
     attendance := λ _ _ _, Resolved (toProcessingResult response) |}.

(** The page with a sheet and one screenshot uploaded. *)
Definition pageReady : Page :=
  {| core := initialState; sourceMode := excel; excelFile := Some (MkFile 1);
     officialImage := None; excelNamesCount := 2; screenshots := [MkFile 2];
     loading := false; sensitivity := BALANCED; error := None; searchTerm := [] |}.

(** The page in review of the session [rawA]. *)
Definition pageReviewing : Page :=
  {| core := reviewing rawA; sourceMode := excel; excelFile := Some (MkFile 1);
     officialImage := None; excelNamesCount := 2; screenshots := [MkFile 2];
     loading := false; sensitivity := BALANCED; error := None; searchTerm := [] |}.

(** A whole session: uploads, the start of a run, one more upload while
    the run is in flight, the end of the run and then of the reading of
    the sheet, one rejection, approval, a ticked name and a staged move. *)
Definition moves : list Move :=
  [User (UploadOfficial [MkFile 1]); User (UploadScreenshots [MkFile 2]);
   User StartAnalysis; User (UploadScreenshots [MkFile 3]); Settles 1; Settles 0;
   User (Reject 0); User Finalize; User (Toggle (js "B")); User (MoveTo ABSENT)].

End MoreSamples.

Import MoreSamples.

(** ** Facts about the array primitives *)

Section ArrayFacts.

Context {A : Type}.

Lemma filterFrom_skip (index : Z) (k : nat) (arr : list A) :
  filterFrom (λ _ i, negb (Z.of_nat i =? index)%Z) k arr =
  if bool_decide (Z.of_nat k <= index < Z.of_nat k + Z.of_nat (length arr))%Z
  then delete (Z.to_nat index - k)%nat arr
  else arr.
Proof.
  revert k. induction arr as [|x rest IH]; intros k; simpl.
  - by case_bool_decide.
  - rewrite IH. destruct (Z.eqb_spec (Z.of_nat k) index) as [Heq | Hne]; simpl.
    + rewrite bool_decide_eq_false_2 by lia.
      rewrite bool_decide_eq_true_2 by lia.
      replace (Z.to_nat index - k)%nat with 0%nat by lia. done.
    + repeat case_bool_decide; try lia; [|done].
      replace (Z.to_nat index - k)%nat with (S (Z.to_nat index - S k)) by lia.
      done.
Qed.

(** Filtering out one index deletes that element, or nothing. *)
Lemma arrayFilter_skip_in (index : Z) (arr : list A) :
  (0 <= index < Z.of_nat (length arr))%Z →
  arrayFilter (λ _ i, negb (Z.of_nat i =? index)%Z) arr =
  delete (Z.to_nat index) arr.
Proof.
  intros H. unfold arrayFilter. rewrite filterFrom_skip.
  rewrite bool_decide_eq_true_2 by lia. f_equal. lia.
Qed.

Lemma arrayFilter_skip_out (index : Z) (arr : list A) :
  ¬ (0 <= index < Z.of_nat (length arr))%Z →
  arrayFilter (λ _ i, negb (Z.of_nat i =? index)%Z) arr = arr.
Proof.
  intros H. unfold arrayFilter. rewrite filterFrom_skip.
  rewrite bool_decide_eq_false_2 by lia. done.
Qed.

Lemma arrayGet_Some (arr : list A) (index : Z) (x : A) :
  arrayGet arr index = Some x ↔
  (0 <= index)%Z ∧ arr !! Z.to_nat index = Some x.
Proof.
  unfold arrayGet. destruct (Z.ltb_spec index 0); split.
  - done.
  - intros [? _]. lia.
  - intros. split; [lia|done].
  - by intros [_ ?].
Qed.

Lemma arrayGet_None (arr : list A) (index : Z) :
  arrayGet arr index = None ↔
  (index < 0 ∨ Z.of_nat (length arr) <= index)%Z.
Proof.
  unfold arrayGet. destruct (Z.ltb_spec index 0).
  - split; [intros _; by left | done].
  - rewrite lookup_ge_None. lia.
Qed.

Variable cmp : A → A → Z.

Let le (x y : A) : Prop := (cmp x y <= 0)%Z.

Lemma sortInsert_Permutation (x : A) (l : list A) :
  sortInsert cmp x l ≡ₚ x :: l.
Proof.
  induction l as [|y l IH]; simpl; [done|].
  destruct (cmp x y <=? 0)%Z; [done|].
  rewrite IH. apply perm_swap.
Qed.

Lemma arraySort_Permutation (l : list A) : arraySort cmp l ≡ₚ l.
Proof.
  induction l as [|x l IH]; simpl; [done|].
  rewrite sortInsert_Permutation. by rewrite IH.
Qed.

Lemma arraySort_length (l : list A) : length (arraySort cmp l) = length l.
Proof. by rewrite arraySort_Permutation. Qed.

Lemma arraySort_elem_of (x : A) (l : list A) : x ∈ arraySort cmp l ↔ x ∈ l.
Proof. by rewrite arraySort_Permutation. Qed.

(** Sorting a sorted array changes nothing; no law of [cmp] is needed. *)
Lemma arraySort_Sorted_id (l : list A) : Sorted le l → arraySort cmp l = l.
Proof.
  induction 1 as [|x l Hs IH Hhd]; simpl; [done|].
  rewrite IH. destruct Hhd as [|y l' Hxy]; simpl; [done|].
  unfold le in Hxy. by rewrite (proj2 (Z.leb_le _ _) Hxy).
Qed.

Section Total.

Hypothesis cmp_total : ∀ x y, (cmp x y <= 0 ∨ cmp y x <= 0)%Z.

Lemma sortInsert_Sorted (x : A) (l : list A) :
  Sorted le l → Sorted le (sortInsert cmp x l).
Proof.
  induction 1 as [|y l Hs IH Hhd]; simpl.
  - by repeat constructor.
  - destruct (Z.leb_spec (cmp x y) 0) as [Hle | Hgt].
    + constructor; [by constructor|]. by constructor.
    + constructor; [done|].
      assert (Hyx : le y x) by (destruct (cmp_total x y); [lia | done]).
      destruct Hhd as [|z l' Hyz]; simpl.
      * by constructor.
      * destruct (cmp x z <=? 0)%Z; by constructor.
Qed.

Lemma arraySort_Sorted (l : list A) : Sorted le (arraySort cmp l).
Proof.
  induction l as [|x l IH]; simpl; [constructor|].
  by apply sortInsert_Sorted.
Qed.

Lemma arraySort_idempotent (l : list A) :
  arraySort cmp (arraySort cmp l) = arraySort cmp l.
Proof. apply arraySort_Sorted_id, arraySort_Sorted. Qed.

End Total.

Section Transitive.

Hypothesis cmp_trans :
  ∀ x y z, (cmp x y <= 0 → cmp y z <= 0 → cmp x z <= 0)%Z.

Lemma Sorted_delete (i : nat) (l : list A) :
  Sorted le l → Sorted le (delete i l).
Proof.
  intros Hs.
  assert (Htr : Transitive le) by (intros x y z; apply cmp_trans).
  apply Sorted_StronglySorted in Hs; [|done].
  apply StronglySorted_Sorted.
  revert i. induction Hs as [|x l Hs IH Hall]; intros i.
  { destruct i; constructor. }
  destruct i as [|i]; simpl; [done|].
  constructor; [apply IH|].
  apply Forall_forall. intros y Hy.
  rewrite Forall_forall in Hall. apply Hall.
  eapply elem_of_sublist; [exact Hy|]. apply sublist_delete.
Qed.

End Transitive.

End ArrayFacts.

(** ** Facts about the engine *)

Section EngineFacts.

Variable localeCompare : jsstring → jsstring → Z.

#[local] Abbreviation sortFn := (Engine.sortFn localeCompare).
#[local] Abbreviation nameLe := (Engine.nameLe localeCompare).
#[local] Abbreviation bucketsSorted := (Engine.bucketsSorted localeCompare).

Lemma sortFn_Permutation (l : list Attendee) : sortFn l ≡ₚ l.
Proof. apply arraySort_Permutation. Qed.

Lemma sortFn_elem_of (a : Attendee) (l : list Attendee) : a ∈ sortFn l ↔ a ∈ l.
Proof. apply arraySort_elem_of. Qed.

Lemma sortFn_Sorted_id (l : list Attendee) : Sorted nameLe l → sortFn l = l.
Proof. apply arraySort_Sorted_id. Qed.

Lemma elem_of_snoc {B : Type} (x : B) (l : list B) : x ∈ l ++ [x].
Proof. apply elem_of_app. right. by apply list_elem_of_singleton. Qed.

(** The [forEach] of the bulk change sends each attendee to the array of
    its status field, keeping the order. *)
Lemma fold_pushByStatus (l : list Attendee) (acc : ProcessingResult) (s : AttendanceStatus) :
  bucket s (fold_left pushByStatus l acc) =
  bucket s acc ++ filter (λ a, status a = s) l.
Proof.
  revert acc. induction l as [|a l IH]; intros acc; simpl.
  - by rewrite app_nil_r.
  - rewrite IH. unfold pushByStatus. rewrite filter_cons.
    destruct (status a), s; simpl; by rewrite <- ?app_assoc.
Qed.

Lemma filter_by_status_Permutation (l : list Attendee) :
  filter (λ a, status a = PRESENT) l ++ filter (λ a, status a = ABSENT) l ++
  filter (λ a, status a = UNEXPECTED) l ≡ₚ l.
Proof.
  induction l as [|a l IH]; [done|].
  rewrite !filter_cons. destruct (status a); repeat case_decide; try done; simpl.
  - by rewrite IH.
  - rewrite <- Permutation_middle. by rewrite IH.
  - rewrite app_assoc, <- Permutation_middle, <- app_assoc. by rewrite IH.
Qed.

Lemma remaining_moved_Permutation (sel : gset jsstring) (target : AttendanceStatus) (l : list Attendee) :
  filter (λ a, name a ∉ sel) l ++ (withStatus target <$> filter (λ a, name a ∈ sel) l)
  ≡ₚ retarget sel target <$> l.
Proof.
  induction l as [|a l IH]; [done|].
  rewrite fmap_cons. unfold retarget at 1.
  destruct (decide (name a ∈ sel)) as [Hin | Hout].
  - rewrite bool_decide_eq_true_2 by done.
    rewrite filter_cons_False by (intros Hn; by apply Hn).
    rewrite filter_cons_True by done.
    rewrite fmap_cons, <- Permutation_middle. by rewrite IH.
  - rewrite bool_decide_eq_false_2 by done.
    rewrite filter_cons_True by done.
    rewrite filter_cons_False by done.
    simpl. by rewrite IH.
Qed.

Lemma filter_unselected_retarget (sel : gset jsstring) (target : AttendanceStatus) (l : list Attendee) :
  filter (λ a, name a ∉ sel) (retarget sel target <$> l) =
  filter (λ a, name a ∉ sel) l.
Proof.
  induction l as [|a l IH]; [done|].
  rewrite fmap_cons. unfold retarget at 1.
  destruct (decide (name a ∈ sel)) as [Hin | Hout].
  - rewrite bool_decide_eq_true_2 by done.
    rewrite !filter_cons_False by (simpl; intros Hn; by apply Hn). done.
  - rewrite bool_decide_eq_false_2 by done.
    rewrite !filter_cons_True by done. by rewrite IH.
Qed.

(** The finalized classification after a confirmed bulk change, bucket by
    bucket. *)
Lemma handleBulkStatusChange_unfold (st : AppState) (fin : ProcessingResult) (target : AttendanceStatus) :
  finalResults st = Some fin →
  pendingStatus st = Some target →
  let moved := filter (λ a, name a ∈ selectedNames st) (allOf fin) in
  let remaining := filter (λ a, name a ∉ selectedNames st) (allOf fin) in
  let l := remaining ++ (withStatus target <$> moved) in
  let next :=
    {| present := sortFn (filter (λ a, status a = PRESENT) l);
       absent := sortFn (filter (λ a, status a = ABSENT) l);
       unexpected := sortFn (filter (λ a, status a = UNEXPECTED) l) |} in
  handleBulkStatusChange localeCompare st =
  (Returned,
   setPendingStatus None
     (setShowBulkConfirm false
        (setSelectedNames ∅ (setFinalResults (Some next) st)))).
Proof.
  intros Hfin Hpend. simpl. unfold handleBulkStatusChange.
  rewrite Hfin, Hpend.
  pose proof (fold_pushByStatus
    (filter (λ a, name a ∉ selectedNames st) (allOf fin) ++
     (withStatus target <$> filter (λ a, name a ∈ selectedNames st) (allOf fin)))
    emptyResult) as Hb.
  pose proof (Hb PRESENT) as Hp. pose proof (Hb ABSENT) as Ha.
  pose proof (Hb UNEXPECTED) as Hu. simpl in Hp, Ha, Hu.
  by rewrite Hp, Ha, Hu.
Qed.

(** [rejectMatch] on a session, at an index that holds a match. *)
Lemma rejectMatch_unfold (st : AppState) (raw : ProcessingResult) (index : Z) (m : Attendee) :
  rawResults st = Some raw →
  arrayGet (present raw) index = Some m →
  rejectMatch localeCompare index st =
  (Returned,
   setRawResults
     (Some {| present := delete (Z.to_nat index) (present raw);
              absent :=
                sortFn (absent raw ++
                        [{| name := name m; status := ABSENT; originalName := None |}]);
              unexpected :=
                sortFn (unexpected raw ++
                        [{| name := orElse (originalName m) []; status := UNEXPECTED;
                            originalName := None |}]) |}) st).
Proof.
  intros Hraw Hget. unfold rejectMatch. rewrite Hraw, Hget.
  apply arrayGet_Some in Hget as [Hpos Hlook].
  apply lookup_lt_Some in Hlook.
  rewrite arrayFilter_skip_in by lia. done.
Qed.

Lemma orElse_Some (s : jsstring) : orElse (Some s) [] = s.
Proof. by destruct s. Qed.

(** C1. In a review session, [rejectMatch i] at an in-range index [i]
    returns normally and the session read back from the state afterwards is
    a new one: its present bucket is the old one without the attendee [m]
    at [i]; its absent bucket is the old one plus an attendee named [m]'s
    roster name with status Absent; its unexpected bucket is the old one
    plus an attendee with status Unexpected whose name is [m]'s
    originalName (each up to the re-sorting). The other state variables
    are as before. *)
Theorem rejectMatch_moves_match (st : AppState) (raw : ProcessingResult) (index : Z) :
  rawResults st = Some raw →
  (0 <= index < Z.of_nat (length (present raw)))%Z →
  ∃ (m : Attendee) (raw' : ProcessingResult),
    present raw !! Z.to_nat index = Some m ∧
    (rejectMatch localeCompare index st).1 = Returned ∧
    rawResults (rejectMatch localeCompare index st).2 = Some raw' ∧
    present raw' = delete (Z.to_nat index) (present raw) ∧
    absent raw' ≡ₚ
      absent raw ++ [{| name := name m; status := ABSENT; originalName := None |}] ∧
    {| name := name m; status := ABSENT; originalName := None |} ∈ absent raw' ∧
    unexpected raw' ≡ₚ
      unexpected raw ++
      [{| name := orElse (originalName m) []; status := UNEXPECTED;
          originalName := None |}] ∧
    (∀ s : jsstring, originalName m = Some s →
       {| name := s; status := UNEXPECTED; originalName := None |} ∈ unexpected raw') ∧
    finalResults (rejectMatch localeCompare index st).2 = finalResults st ∧
    isReviewing (rejectMatch localeCompare index st).2 = isReviewing st ∧
    selectedNames (rejectMatch localeCompare index st).2 = selectedNames st.
Proof.
  intros Hraw Hrange.
  destruct (lookup_lt_is_Some_2 (present raw) (Z.to_nat index)) as [m Hm]; [lia|].
  assert (Hget : arrayGet (present raw) index = Some m)
    by (apply arrayGet_Some; split; [lia | done]).
  rewrite (rejectMatch_unfold st raw index m Hraw Hget).
  eexists m, _. split; [done|]. split; [done|]. split; [reflexivity|]. simpl.
  split; [done|]. split; [apply sortFn_Permutation|].
  split; [apply sortFn_elem_of, elem_of_snoc|].
  split; [apply sortFn_Permutation|].
  split; [|done].
  intros s Hs. apply sortFn_elem_of. rewrite Hs, orElse_Some. apply elem_of_snoc.
Qed.

(** The round trip of the specification, for any collation and any other
    two buckets being empty. *)
Example rejectMatch_round_trip (st : AppState) :
  rawResults st =
    Some {| present := [{| name := js "A"; status := PRESENT;
                           originalName := Some (js "A-zoom") |}];
            absent := []; unexpected := [] |} →
  rawResults (rejectMatch localeCompare 0 st).2 =
    Some {| present := [];
            absent := [{| name := js "A"; status := ABSENT; originalName := None |}];
            unexpected := [{| name := js "A-zoom"; status := UNEXPECTED;
                              originalName := None |}] |}.
Proof. intros Hraw. unfold rejectMatch. by rewrite Hraw. Qed.

(** C7. In a review session, [rejectMatch i] at an index outside the
    present bucket ends with a thrown [TypeError] (the read of [match.name]
    on [undefined]) before any state setter runs: the state, and with it
    the three buckets, is the one before the call. *)
Theorem rejectMatch_out_of_range (st : AppState) (raw : ProcessingResult) (index : Z) :
  rawResults st = Some raw →
  (index < 0 ∨ Z.of_nat (length (present raw)) <= index)%Z →
  rejectMatch localeCompare index st = (Thrown TypeError, st).
Proof.
  intros Hraw Hout. unfold rejectMatch. rewrite Hraw.
  by rewrite (proj2 (arrayGet_None (present raw) index) Hout).
Qed.

(** C10. When the rejected attendee has no originalName (the field is
    missing or the empty string), [rejectMatch] still returns normally, and
    the unexpected bucket of the session read back from the state holds an
    attendee whose name is the empty string: it is the old bucket plus that
    attendee, one longer. *)
Theorem rejectMatch_missing_originalName
    (st : AppState) (raw : ProcessingResult) (index : Z) (m : Attendee) :
  rawResults st = Some raw →
  arrayGet (present raw) index = Some m →
  originalName m = None ∨ originalName m = Some [] →
  ∃ raw' : ProcessingResult,
    (rejectMatch localeCompare index st).1 = Returned ∧
    rawResults (rejectMatch localeCompare index st).2 = Some raw' ∧
    {| name := []; status := UNEXPECTED; originalName := None |} ∈ unexpected raw' ∧
    unexpected raw' ≡ₚ
      unexpected raw ++ [{| name := []; status := UNEXPECTED; originalName := None |}] ∧
    length (unexpected raw') = S (length (unexpected raw)).
Proof.
  intros Hraw Hget Hnone.
  assert (Hor : orElse (originalName m) [] = []) by (by destruct Hnone as [-> | ->]).
  rewrite (rejectMatch_unfold st raw index m Hraw Hget).
  eexists. split; [done|]. split; [reflexivity|]. simpl. rewrite Hor.
  split; [apply sortFn_elem_of, elem_of_snoc|].
  split; [apply sortFn_Permutation|].
  rewrite sortFn_Permutation, length_app. simpl. lia.
Qed.

(** C6, as the code has it. [finalizeReport] on a review session returns
    normally, stores the session as the finalized classification and
    leaves review mode; the raw session stays in the state, and the
    selection and the staged bulk change are untouched. *)
Theorem finalizeReport_keeps_raw (st : AppState) (raw : ProcessingResult) :
  rawResults st = Some raw →
  ∃ st' : AppState,
    finalizeReport st = (Returned, st') ∧
    finalResults st' = Some raw ∧
    isReviewing st' = false ∧
    rawResults st' = Some raw ∧
    selectedNames st' = selectedNames st ∧
    showBulkConfirm st' = showBulkConfirm st ∧
    pendingStatus st' = pendingStatus st.
Proof.
  intros Hraw. unfold finalizeReport. rewrite Hraw.
  eexists. split; [done|]. by simpl.
Qed.

(** C8, as the code has it. [finalizeReport] without a review session
    returns normally and changes nothing: no error is raised. *)
Theorem finalizeReport_no_session (st : AppState) :
  rawResults st = None → finalizeReport st = (Returned, st).
Proof. intros Hraw. unfold finalizeReport. by rewrite Hraw. Qed.

(** *** Bulk change *)

Lemma withStatus_name (t : AttendanceStatus) (a : Attendee) : name (withStatus t a) = name a.
Proof. done. Qed.

Lemma retarget_name (sel : gset jsstring) (t : AttendanceStatus) (a : Attendee) :
  name (retarget sel t a) = name a.
Proof. unfold retarget. by case_bool_decide. Qed.

Lemma names_retarget (sel : gset jsstring) (t : AttendanceStatus) (l : list Attendee) :
  names (retarget sel t <$> l) = names l.
Proof.
  unfold names. rewrite <- list_fmap_compose. apply list_fmap_ext.
  intros i a _. apply retarget_name.
Qed.

(** The three buckets after a bulk change hold, together, the old
    attendees with the selected ones retargeted. *)
Lemma bulk_allOf_Permutation (sel : gset jsstring) (t : AttendanceStatus) (all : list Attendee) :
  let l := filter (λ a, name a ∉ sel) all ++
           (withStatus t <$> filter (λ a, name a ∈ sel) all) in
  allOf {| present := sortFn (filter (λ a, status a = PRESENT) l);
           absent := sortFn (filter (λ a, status a = ABSENT) l);
           unexpected := sortFn (filter (λ a, status a = UNEXPECTED) l) |}
  ≡ₚ retarget sel t <$> all.
Proof.
  intros l. unfold allOf. simpl. rewrite !sortFn_Permutation.
  rewrite filter_by_status_Permutation. apply remaining_moved_Permutation.
Qed.

(** C9. A confirmed bulk change keeps every attendee: the three buckets
    after it hold exactly the attendees before it, those whose name is
    selected with the new status and the same name and originalName, the
    others unchanged; the total count is the same. *)
Theorem bulk_change_preserves_attendees
    (st : AppState) (fin : ProcessingResult) (target : AttendanceStatus) :
  finalResults st = Some fin →
  pendingStatus st = Some target →
  ∃ next : ProcessingResult,
    finalResults (handleBulkStatusChange localeCompare st).2 = Some next ∧
    allOf next ≡ₚ retarget (selectedNames st) target <$> allOf fin ∧
    filter (λ a, name a ∉ selectedNames st) (allOf next) ≡ₚ
      filter (λ a, name a ∉ selectedNames st) (allOf fin) ∧
    length (allOf next) = length (allOf fin).
Proof.
  intros Hfin Hpend.
  rewrite (handleBulkStatusChange_unfold st fin target Hfin Hpend).
  eexists. split; [done|].
  pose proof (bulk_allOf_Permutation (selectedNames st) target (allOf fin)) as Hperm.
  simpl in Hperm. split; [exact Hperm|]. split.
  - rewrite Hperm. by rewrite filter_unselected_retarget.
  - rewrite Hperm. apply length_fmap.
Qed.

Section Sortedness.

Hypothesis localeCompare_total :
  ∀ a b : jsstring, (localeCompare a b <= 0 ∨ localeCompare b a <= 0)%Z.

Lemma sortFn_Sorted (l : list Attendee) : Sorted nameLe (sortFn l).
Proof.
  apply (arraySort_Sorted (byName localeCompare)).
  intros x y. apply localeCompare_total.
Qed.

(** C3. Confirming a staged bulk change on a finalized classification
    returns normally; every attendee of any bucket whose name is selected
    is, with its status overwritten, in the bucket of the target status;
    no other bucket holds a selected name; every bucket holds attendees
    of its own status only; in each of the three buckets every attendee
    is followed by one whose name the collation does not put before its
    own; the selection is empty and the staged change is cleared. *)
Theorem bulk_change_moves_selected
    (st : AppState) (fin : ProcessingResult) (target : AttendanceStatus) :
  finalResults st = Some fin →
  pendingStatus st = Some target →
  ∃ (next : ProcessingResult) (st' : AppState),
    handleBulkStatusChange localeCompare st = (Returned, st') ∧
    finalResults st' = Some next ∧
    (∀ a : Attendee, a ∈ allOf fin → name a ∈ selectedNames st →
       withStatus target a ∈ bucket target next) ∧
    (∀ (s : AttendanceStatus) (b : Attendee),
       s ≠ target → b ∈ bucket s next → name b ∉ selectedNames st) ∧
    (∀ (s : AttendanceStatus) (b : Attendee), b ∈ bucket s next → status b = s) ∧
    (∀ s : AttendanceStatus,
       Sorted (λ a b : Attendee, (localeCompare (name a) (name b) <= 0)%Z)
         (bucket s next)) ∧
    selectedNames st' = ∅ ∧
    pendingStatus st' = None ∧
    showBulkConfirm st' = false.
Proof.
  intros Hfin Hpend.
  rewrite (handleBulkStatusChange_unfold st fin target Hfin Hpend).
  set (l := filter (λ a, name a ∉ selectedNames st) (allOf fin) ++
            (withStatus target <$> filter (λ a, name a ∈ selectedNames st) (allOf fin))).
  set (next := {| present := sortFn (filter (λ a, status a = PRESENT) l);
                  absent := sortFn (filter (λ a, status a = ABSENT) l);
                  unexpected := sortFn (filter (λ a, status a = UNEXPECTED) l) |}).
  assert (Hbucket : ∀ s b, b ∈ bucket s next ↔ status b = s ∧ b ∈ l).
  { intros s b. destruct s; simpl; by rewrite sortFn_elem_of, list_elem_of_filter. }
  exists next. eexists. split; [done|]. simpl. split; [done|].
  split; [|split; [|split; [|split]]].
  - intros a Ha Hsel. apply Hbucket. split; [done|].
    apply elem_of_app. right. apply list_elem_of_fmap_2.
    by apply list_elem_of_filter.
  - intros s b Hne Hb. apply Hbucket in Hb as [Hs Hb].
    apply elem_of_app in Hb as [Hb | Hb].
    + by apply list_elem_of_filter in Hb as [? _].
    + apply list_elem_of_fmap in Hb as (a & -> & _). by simpl in Hs.
  - intros s b Hb. by apply Hbucket in Hb as [? _].
  - intros s. destruct s; simpl; apply sortFn_Sorted.
  - done.
Qed.

Hypothesis localeCompare_trans :
  ∀ a b c : jsstring,
    (localeCompare a b <= 0 → localeCompare b c <= 0 → localeCompare a c <= 0)%Z.

Lemma delete_Sorted (i : nat) (l : list Attendee) :
  Sorted nameLe l → Sorted nameLe (delete i l).
Proof.
  apply (Sorted_delete (byName localeCompare)).
  intros x y z. apply localeCompare_trans.
Qed.

Lemma ingest_stateSorted (res : ProcessingResult) (st : AppState) :
  stateSorted localeCompare st → stateSorted localeCompare (ingest localeCompare res st).2.
Proof.
  intros Hst r [Hr | Hr]; simpl in Hr.
  - injection Hr as <-. repeat split; apply sortFn_Sorted.
  - apply Hst. by right.
Qed.

Lemma rejectMatch_stateSorted (index : Z) (st : AppState) :
  stateSorted localeCompare st →
  stateSorted localeCompare (rejectMatch localeCompare index st).2.
Proof.
  intros Hst. destruct (rawResults st) as [raw|] eqn:Hraw.
  - destruct (arrayGet (present raw) index) as [m|] eqn:Hget.
    + rewrite (rejectMatch_unfold st raw index m Hraw Hget).
      intros r [Hr | Hr]; simpl in Hr.
      * injection Hr as <-. split; [|split]; simpl; [|apply sortFn_Sorted..].
        apply delete_Sorted. apply (Hst raw). by left.
      * apply Hst. by right.
    + unfold rejectMatch. by rewrite Hraw, Hget.
  - unfold rejectMatch. by rewrite Hraw.
Qed.

Lemma finalizeReport_stateSorted (st : AppState) :
  stateSorted localeCompare st → stateSorted localeCompare (finalizeReport st).2.
Proof.
  intros Hst. unfold finalizeReport.
  destruct (rawResults st) as [raw|] eqn:Hraw; [|done].
  intros r [Hr | Hr]; simpl in Hr.
  - apply Hst. left. congruence.
  - apply Hst. left. congruence.
Qed.

Lemma handleBulkStatusChange_stateSorted (st : AppState) :
  stateSorted localeCompare st →
  stateSorted localeCompare (handleBulkStatusChange localeCompare st).2.
Proof.
  intros Hst.
  destruct (finalResults st) as [fin|] eqn:Hfin;
    [destruct (pendingStatus st) as [target|] eqn:Hpend|].
  - rewrite (handleBulkStatusChange_unfold st fin target Hfin Hpend).
    intros r [Hr | Hr]; simpl in Hr.
    + apply Hst. by left.
    + injection Hr as <-. repeat split; apply sortFn_Sorted.
  - unfold handleBulkStatusChange. by rewrite Hfin, Hpend.
  - unfold handleBulkStatusChange. by rewrite Hfin.
Qed.

Lemma initialState_stateSorted : stateSorted localeCompare initialState.
Proof. intros r [Hr | Hr]; discriminate Hr. Qed.

Lemma handle_stateSorted (e : Event) (st : AppState) :
  stateSorted localeCompare st → stateSorted localeCompare (handle localeCompare e st).2.
Proof.
  intros Hst. destruct e as [res|index| |n|s| | |c|]; simpl.
  - by apply ingest_stateSorted.
  - by apply rejectMatch_stateSorted.
  - by apply finalizeReport_stateSorted.
  - done.
  - done.
  - done.
  - by apply handleBulkStatusChange_stateSorted.
  - destruct c; simpl; [apply initialState_stateSorted | done].
  - done.
Qed.

Lemma run_stateSorted (es : list Event) (st : AppState) :
  stateSorted localeCompare st → stateSorted localeCompare (run localeCompare es st).
Proof.
  revert st. induction es as [|e es IH]; intros st Hst; simpl; [done|].
  apply IH. by apply handle_stateSorted.
Qed.

(** C5. After any sequence of operations from the initial state (each
    ingest, rejectMatch or bulk change, and the others in between), the
    three buckets of the session and of the finalized classification are
    sorted ascending by the collation of their names, and sorting such a
    bucket again returns it unchanged; sorting is idempotent. *)
Theorem buckets_sorted_after_every_operation (es : list Event) (r : ProcessingResult) :
  rawResults (run localeCompare es initialState) = Some r ∨
  finalResults (run localeCompare es initialState) = Some r →
  bucketsSorted r ∧
  (sortFn (present r) = present r ∧ sortFn (absent r) = absent r ∧
   sortFn (unexpected r) = unexpected r) ∧
  (∀ l : list Attendee, Sorted nameLe l → sortFn l = l) ∧
  (∀ l : list Attendee, sortFn (sortFn l) = sortFn l).
Proof.
  intros Hr.
  pose proof (run_stateSorted es initialState initialState_stateSorted r Hr)
    as (Hp & Ha & Hu).
  split; [done|]. split.
  - by rewrite !sortFn_Sorted_id.
  - split; [apply sortFn_Sorted_id|].
    intros l. apply sortFn_Sorted_id, sortFn_Sorted.
Qed.

End Sortedness.

End EngineFacts.

(** ** Names across the three buckets *)

Section Distinctness.

Lemma names_allOf (r : ProcessingResult) :
  names (allOf r) = names (present r) ++ names (absent r) ++ names (unexpected r).
Proof. unfold names, allOf. by rewrite !fmap_app. Qed.

(** The two halves of the invariant are one [NoDup]. *)
Lemma namesDistinct_NoDup (r : ProcessingResult) :
  namesDistinct r ↔ NoDup (names (allOf r)).
Proof.
  rewrite names_allOf, !NoDup_app. unfold namesDistinct, noSharedName, noDuplicateName.
  split.
  - intros (Hshare & Hp & Ha & Hu). repeat split; try done.
    + intros n Hn [Hn' | Hn']%elem_of_app; destruct (Hshare n) as (H1 & H2 & H3); tauto.
    + intros n Hn Hn'. destruct (Hshare n) as (H1 & H2 & H3); tauto.
  - intros (Hp & Hpx & Ha & Hax & Hu). repeat split; try done.
    + intros [Hn Hn']. apply (Hpx n Hn), elem_of_app. by left.
    + intros [Hn Hn']. apply (Hpx n Hn), elem_of_app. by right.
    + intros [Hn Hn']. by apply (Hax n Hn).
Qed.

Lemma namesDistinct_Permutation (r r' : ProcessingResult) :
  names (allOf r) ≡ₚ names (allOf r') → namesDistinct r ↔ namesDistinct r'.
Proof. intros Hperm. by rewrite !namesDistinct_NoDup, Hperm. Qed.

Variable localeCompare : jsstring → jsstring → Z.

Lemma names_sortFn (l : list Attendee) :
  names (sortFn localeCompare l) ≡ₚ names l.
Proof. unfold names. by rewrite sortFn_Permutation. Qed.

(** [rejectMatch] adds one name to the names in the buckets: the
    originalName of the rejected attendee, or the empty string. *)
Lemma rejectMatch_names (raw : ProcessingResult) (i : nat) (m : Attendee) :
  present raw !! i = Some m →
  names (allOf
    {| present := delete i (present raw);
       absent :=
         sortFn localeCompare
           (absent raw ++ [{| name := name m; status := ABSENT; originalName := None |}]);
       unexpected :=
         sortFn localeCompare
           (unexpected raw ++
            [{| name := orElse (originalName m) []; status := UNEXPECTED;
                originalName := None |}]) |})
  ≡ₚ orElse (originalName m) [] :: names (allOf raw).
Proof.
  intros Hm. rewrite !names_allOf. simpl. rewrite !names_sortFn.
  unfold names at 2 3. rewrite !fmap_app. simpl.
  fold (names (absent raw)). fold (names (unexpected raw)).
  assert (Hp : names (present raw) ≡ₚ name m :: names (delete i (present raw))).
  { unfold names. rewrite (delete_Permutation (present raw) i m Hm) at 1. done. }
  rewrite Hp. rewrite <- !Permutation_cons_append. simpl.
  rewrite <- !Permutation_middle. apply perm_swap.
Qed.

(** C4, as the code has it. The code never removes duplicates. Ingest
    stores buckets with the names the oracle gave, so they are free of
    shared and duplicate names exactly when the oracle's are; a bulk
    change keeps the names, so it preserves that property both ways; and
    [rejectMatch] adds the rejected attendee's originalName (or the empty
    string) as a name, so afterwards the buckets are free of shared and
    duplicate names exactly when they were before and that name was not
    yet a name of any bucket. *)
Theorem names_distinct_preserved :
  (∀ (res : ProcessingResult) (st : AppState),
     ∃ raw' : ProcessingResult,
       rawResults (ingest localeCompare res st).2 = Some raw' ∧
       (namesDistinct raw' ↔ namesDistinct res)) ∧
  (∀ (st : AppState) (raw : ProcessingResult) (index : Z) (m : Attendee),
     rawResults st = Some raw →
     arrayGet (present raw) index = Some m →
     ∃ raw' : ProcessingResult,
       rawResults (rejectMatch localeCompare index st).2 = Some raw' ∧
       (namesDistinct raw' ↔
        namesDistinct raw ∧ orElse (originalName m) [] ∉ names (allOf raw))) ∧
  (∀ (st : AppState) (fin : ProcessingResult) (target : AttendanceStatus),
     finalResults st = Some fin →
     pendingStatus st = Some target →
     ∃ next : ProcessingResult,
       finalResults (handleBulkStatusChange localeCompare st).2 = Some next ∧
       (namesDistinct next ↔ namesDistinct fin)).
Proof.
  split; [|split].
  - intros res st. eexists. split; [done|].
    apply namesDistinct_Permutation. rewrite !names_allOf. simpl.
    by rewrite !names_sortFn.
  - intros st raw index m Hraw Hget.
    rewrite (rejectMatch_unfold localeCompare st raw index m Hraw Hget).
    eexists. split; [done|].
    apply arrayGet_Some in Hget as [_ Hm].
    rewrite !namesDistinct_NoDup, (rejectMatch_names raw _ m Hm), NoDup_cons.
    tauto.
  - intros st fin target Hfin Hpend.
    rewrite (handleBulkStatusChange_unfold localeCompare st fin target Hfin Hpend).
    eexists. split; [done|].
    apply namesDistinct_Permutation.
    pose proof (bulk_allOf_Permutation localeCompare (selectedNames st) target (allOf fin))
      as Hperm.
    simpl in Hperm. unfold names at 1. rewrite Hperm.
    apply reflexive_eq, names_retarget.
Qed.

End Distinctness.

(** ** Facts about the roster extractor *)

Section ExcelFacts.

(** [split] gives one piece more than there are separators. *)
Lemma split_length (sep : N) (s : jsstring) :
  length (split sep s) = S (length (filter (λ c, c = sep) s)).
Proof.
  induction s as [|c s IH]; [done|].
  rewrite filter_cons. cbn [split].
  destruct (N.eqb_spec c sep) as [-> | Hne].
  - rewrite decide_True by done. simpl. by rewrite IH.
  - rewrite decide_False by done.
    destruct (split sep s) as [|p ps]; simpl in *; [discriminate IH | done].
Qed.

Lemma split_two_pieces (sep : N) (s : jsstring) :
  (2 <= length (split sep s))%nat ↔ sep ∈ s.
Proof.
  rewrite split_length. split.
  - intros Hlen.
    destruct (filter (λ c, c = sep) s) as [|c r] eqn:Hf; [simpl in Hlen; lia|].
    assert (Hc : c ∈ filter (λ c, c = sep) s) by (rewrite Hf; left).
    by apply list_elem_of_filter in Hc as [-> ?].
  - intros Hin.
    assert (Hc : sep ∈ filter (λ c, c = sep) s) by (by apply list_elem_of_filter).
    destruct (filter (λ c, c = sep) s); [by apply elem_of_nil in Hc | simpl; lia].
Qed.

(** The [if] of the extractor, condition by condition. *)
Lemma passesFilter_spec (val : jsstring) :
  passesFilter val = true ↔
  val ≠ [] ∧ (5 < length val)%nat ∧ 32 ∈ val ∧ isNaN_Number val = true.
Proof.
  unfold passesFilter. rewrite !andb_true_iff, negb_true_iff, bool_decide_eq_false.
  rewrite N.ltb_lt, N.leb_le, <- split_two_pieces.
  assert (H1 : 5 < N.of_nat (length val) ↔ (5 < length val)%nat) by lia.
  assert (H2 : 2 <= N.of_nat (length (split 32 val)) ↔
               (2 <= length (split 32 val))%nat) by lia.
  tauto.
Qed.

Lemma arrayFromSet_acc (names acc : list jsstring) (n : jsstring) :
  n ∈ fold_left (λ acc n, if bool_decide (n ∈ acc) then acc else acc ++ [n]) names acc
  ↔ n ∈ acc ∨ n ∈ names.
Proof.
  revert acc. induction names as [|x names IH]; intros acc; simpl.
  - rewrite elem_of_nil. tauto.
  - rewrite IH, elem_of_cons. case_bool_decide as Hx.
    + split; [tauto|]. intros [?|[->|?]]; tauto.
    + rewrite elem_of_app, list_elem_of_singleton. tauto.
Qed.

Lemma arrayFromSet_elem_of (names : list jsstring) (n : jsstring) :
  n ∈ arrayFromSet names ↔ n ∈ names.
Proof. unfold arrayFromSet. rewrite arrayFromSet_acc, elem_of_nil. tauto. Qed.

Lemma arrayFromSet_NoDup (names : list jsstring) : NoDup (arrayFromSet names).
Proof.
  unfold arrayFromSet.
  assert (H : ∀ acc, NoDup acc →
    NoDup (fold_left (λ acc n, if bool_decide (n ∈ acc) then acc else acc ++ [n]) names acc)).
  { induction names as [|x names IH]; intros acc Hacc; simpl; [done|].
    apply IH. case_bool_decide as Hx; [done|].
    apply NoDup_app. split; [done|]. split; [|apply NoDup_singleton].
    intros y Hy ->%list_elem_of_singleton. done. }
  apply H. constructor.
Qed.

Lemma pushed_elem_of (jsonData : list (list Cell)) (val : jsstring) :
  val ∈ pushed jsonData ↔
  ∃ row cell, row ∈ jsonData ∧ cell ∈ row ∧
              cellVal cell = Some val ∧ isCandidate cell = true.
Proof.
  unfold pushed. rewrite list_elem_of_In, in_flat_map. split.
  - intros (row & Hrow & Hval). apply in_flat_map in Hval as (cell & Hcell & Hval).
    exists row, cell. rewrite !list_elem_of_In. split; [done|]. split; [done|].
    unfold isCandidate. destruct (cellVal cell) as [v|]; [|by destruct Hval].
    destruct (passesFilter v) eqn:Hp; [|by destruct Hval].
    destruct Hval as [-> | []]. done.
  - intros (row & cell & Hrow & Hcell & Hval & Hcand).
    exists row. rewrite <- list_elem_of_In. split; [done|].
    apply in_flat_map. exists cell. rewrite <- list_elem_of_In. split; [done|].
    unfold isCandidate in Hcand. rewrite Hval in *. rewrite Hcand. by left.
Qed.

(** *** Trimmed values *)

Lemma trimStart_decomp (s : jsstring) :
  ∃ p : jsstring, s = p ++ trimStart s ∧ Forall (λ c, isWhiteSpace c = true) p.
Proof.
  induction s as [|c s (p & Hp & Hws)]; simpl.
  - by exists [].
  - destruct (isWhiteSpace c) eqn:Hc.
    + exists (c :: p). split; [by rewrite Hp at 1 | by constructor].
    + by exists [].
Qed.

Lemma trimStart_head (s : jsstring) (c : N) (r : jsstring) :
  trimStart s = c :: r → isWhiteSpace c = false.
Proof.
  induction s as [|x s IH]; simpl; [done|].
  destruct (isWhiteSpace x) eqn:Hx; [done|]. by intros [= <- _].
Qed.

Lemma trim_head (s : jsstring) (c : N) (r : jsstring) :
  trim s = c :: r → isWhiteSpace c = false.
Proof.
  unfold trim, trimEnd. intros Htrim.
  destruct (trimStart_decomp (rev (trimStart s))) as (p & Hp & _).
  apply (f_equal (@rev N)) in Hp. rewrite rev_involutive, rev_app_distr, Htrim in Hp.
  simpl in Hp. by apply trimStart_head in Hp.
Qed.

Lemma trim_last (s : jsstring) (r : jsstring) (c : N) :
  trim s = r ++ [c] → isWhiteSpace c = false.
Proof.
  unfold trim, trimEnd. intros Htrim.
  apply (f_equal (@rev N)) in Htrim. rewrite rev_involutive, rev_app_distr in Htrim.
  simpl in Htrim. by apply trimStart_head in Htrim.
Qed.

(** *** Tokens of the specification wording *)

Lemma tokens_cur (cur s : jsstring) :
  cur ≠ [] → (1 <= length (spec_tokens_from cur s))%nat.
Proof.
  revert cur. induction s as [|c s IH]; intros cur Hcur; simpl.
  - destruct cur; [done | simpl; lia].
  - destruct (isWhiteSpace c).
    + destruct cur; [done | simpl; lia].
    + by apply IH.
Qed.

Lemma tokens_nonws (cur s : jsstring) (c : N) :
  c ∈ s → isWhiteSpace c = false → (1 <= length (spec_tokens_from cur s))%nat.
Proof.
  revert cur. induction s as [|x s IH]; intros cur Hin Hc; [by apply elem_of_nil in Hin|].
  simpl. destruct (isWhiteSpace x) eqn:Hx.
  - apply elem_of_cons in Hin as [-> | Hin]; [congruence|].
    destruct cur; [by apply IH | simpl; lia].
  - by apply tokens_cur.
Qed.

Lemma tokens_two (cur p : jsstring) (w : N) (q : jsstring) (c : N) :
  cur ≠ [] → isWhiteSpace w = true → c ∈ q → isWhiteSpace c = false →
  (2 <= length (spec_tokens_from cur (p ++ w :: q)))%nat.
Proof.
  intros Hcur Hw Hin Hc. revert cur Hcur.
  induction p as [|x p IH]; intros cur Hcur; simpl.
  - rewrite Hw. pose proof (tokens_nonws [] q c Hin Hc).
    destruct cur; [done | simpl; lia].
  - destruct (isWhiteSpace x).
    + assert (Hin' : c ∈ p ++ w :: q) by (apply elem_of_app; right; by right).
      pose proof (tokens_nonws [] _ c Hin' Hc).
      destruct cur; [done | simpl; lia].
    + by apply IH.
Qed.

(** A trimmed value with a space in it has two tokens or more. *)
Lemma trimmed_space_two_tokens (text : jsstring) :
  32 ∈ trim text → (2 <= length (spec_tokens (trim text)))%nat.
Proof.
  intros Hin. destruct (trim text) as [|c0 s1] eqn:Hval; [by apply elem_of_nil in Hin|].
  pose proof (trim_head text c0 s1 Hval) as Hc0.
  apply elem_of_cons in Hin as [<- | Hin]; [done|].
  apply list_elem_of_split in Hin as (p & q & ->).
  unfold spec_tokens. simpl. rewrite Hc0.
  destruct (rev q) as [|z q'] eqn:Hq.
  - apply (f_equal (@rev N)) in Hq. rewrite rev_involutive in Hq. simpl in Hq. subst q.
    pose proof (trim_last text (c0 :: p) 32) as Hlast.
    rewrite Hval in Hlast. by specialize (Hlast eq_refl).
  - apply (f_equal (@rev N)) in Hq. rewrite rev_involutive in Hq. simpl in Hq. subst q.
    pose proof (trim_last text (c0 :: p ++ 32 :: rev q') z) as Hlast.
    rewrite Hval in Hlast. simpl in Hlast.
    rewrite <- app_assoc in Hlast. specialize (Hlast eq_refl).
    apply (tokens_two [c0] p 32 (rev q' ++ [z]) z); [done | done | | done].
    apply elem_of_app. right. by left.
Qed.

(** *** Numbers contain no space *)

Lemma forallb_no_space (p : N → bool) (s : jsstring) :
  (∀ c, p c = true → c ≠ 32) → forallb p s = true → 32 ∉ s.
Proof.
  intros Hp Hall Hin. rewrite forallb_forall in Hall.
  apply list_elem_of_In in Hin. by apply (Hp 32 (Hall 32 Hin)).
Qed.

Lemma digits1_no_space (p : N → bool) (s : jsstring) :
  (∀ c, p c = true → c ≠ 32) → digits1 p s = true → 32 ∉ s.
Proof.
  intros Hp. destruct s as [|c s]; [done|]. apply (forallb_no_space p (c :: s) Hp).
Qed.

Lemma isDecimalDigit_no_space (c : N) : isDecimalDigit c = true → c ≠ 32.
Proof. unfold isDecimalDigit. rewrite andb_true_iff, !N.leb_le. lia. Qed.

Lemma isBinaryDigit_no_space (c : N) : isBinaryDigit c = true → c ≠ 32.
Proof. unfold isBinaryDigit. rewrite orb_true_iff, !N.eqb_eq. lia. Qed.

Lemma isOctalDigit_no_space (c : N) : isOctalDigit c = true → c ≠ 32.
Proof. unfold isOctalDigit. rewrite andb_true_iff, !N.leb_le. lia. Qed.

Lemma isHexDigit_no_space (c : N) : isHexDigit c = true → c ≠ 32.
Proof.
  unfold isHexDigit, isDecimalDigit.
  rewrite !orb_true_iff, !andb_true_iff, !N.leb_le. lia.
Qed.

Lemma span_app (p : N → bool) (s a b : jsstring) :
  span p s = (a, b) → s = a ++ b ∧ forallb p a = true.
Proof.
  revert a b. induction s as [|c s IH]; intros a b; simpl.
  - by intros [= <- <-].
  - destruct (p c) eqn:Hc.
    + destruct (span p s) as [a' b']. intros [= <- <-].
      destruct (IH a' b' eq_refl) as [-> Hall]. simpl. by rewrite Hc.
    + by intros [= <- <-].
Qed.

Lemma isExponentPartOpt_no_space (s : jsstring) :
  isExponentPartOpt s = true → 32 ∉ s.
Proof.
  destruct s as [|e r]; [intros _; apply not_elem_of_nil|]. simpl.
  rewrite andb_true_iff, orb_true_iff, !N.eqb_eq. intros [He Hr].
  apply not_elem_of_cons. split; [lia|].
  destruct r as [|sg r']; [done|].
  destruct (orb (sg =? 43) (sg =? 45)) eqn:Hsg.
  - apply orb_true_iff in Hsg. rewrite !N.eqb_eq in Hsg.
    apply not_elem_of_cons. split; [lia|].
    apply (digits1_no_space isDecimalDigit); [apply isDecimalDigit_no_space | exact Hr].
  - apply (digits1_no_space isDecimalDigit); [apply isDecimalDigit_no_space | exact Hr].
Qed.

Lemma isStrUnsignedDecimalLiteral_no_space (s : jsstring) :
  isStrUnsignedDecimalLiteral s = true → 32 ∉ s.
Proof.
  unfold isStrUnsignedDecimalLiteral. case_bool_decide as Hinf.
  - intros _. subst s. intros Hin. vm_compute in Hin.
    repeat (apply elem_of_cons in Hin as [Hin | Hin]; [discriminate Hin|]).
    by apply elem_of_nil in Hin.
  - destruct (span isDecimalDigit s) as [d1 r] eqn:Hspan.
    apply span_app in Hspan as [-> Hd1].
    pose proof (forallb_no_space _ _ isDecimalDigit_no_space Hd1) as Hn1.
    destruct r as [|c r2].
    + intros _. by rewrite app_nil_r.
    + destruct (N.eqb_spec c 46) as [-> | Hdot].
      * destruct (span isDecimalDigit r2) as [d2 r3] eqn:Hspan2.
        apply span_app in Hspan2 as [-> Hd2].
        pose proof (forallb_no_space _ _ isDecimalDigit_no_space Hd2) as Hn2.
        rewrite andb_true_iff. intros [_ Hexp%isExponentPartOpt_no_space].
        rewrite !not_elem_of_app, not_elem_of_cons, not_elem_of_app.
        repeat split; try done.
      * rewrite andb_true_iff. intros [_ Hexp%isExponentPartOpt_no_space].
        by apply not_elem_of_app.
Qed.

Lemma isNonDecimalIntegerLiteral_no_space (s : jsstring) :
  isNonDecimalIntegerLiteral s = true → 32 ∉ s.
Proof.
  destruct s as [|z [|k r]]; [done | done |]. simpl.
  rewrite andb_true_iff, N.eqb_eq. intros [-> Hr].
  apply not_elem_of_cons. split; [done|].
  destruct (orb (k =? 98) (k =? 66)) eqn:Hb;
    [|destruct (orb (k =? 111) (k =? 79)) eqn:Ho;
      [|destruct (orb (k =? 120) (k =? 88)) eqn:Hx; [|done]]].
  - apply orb_true_iff in Hb. rewrite !N.eqb_eq in Hb.
    apply not_elem_of_cons. split; [lia|].
    apply (digits1_no_space isBinaryDigit); [apply isBinaryDigit_no_space | exact Hr].
  - apply orb_true_iff in Ho. rewrite !N.eqb_eq in Ho.
    apply not_elem_of_cons. split; [lia|].
    apply (digits1_no_space isOctalDigit); [apply isOctalDigit_no_space | exact Hr].
  - apply orb_true_iff in Hx. rewrite !N.eqb_eq in Hx.
    apply not_elem_of_cons. split; [lia|].
    apply (digits1_no_space isHexDigit); [apply isHexDigit_no_space | exact Hr].
Qed.

Lemma isStrNumericLiteral_no_space (s : jsstring) :
  isStrNumericLiteral s = true → 32 ∉ s.
Proof.
  unfold isStrNumericLiteral. rewrite orb_true_iff.
  intros [Hnd | Hdec]; [by apply isNonDecimalIntegerLiteral_no_space|].
  destruct s as [|sg r]; [done|].
  destruct (orb (sg =? 43) (sg =? 45)) eqn:Hsg.
  - apply orb_true_iff in Hsg. rewrite !N.eqb_eq in Hsg.
    apply not_elem_of_cons. split; [lia|].
    by apply isStrUnsignedDecimalLiteral_no_space.
  - by apply isStrUnsignedDecimalLiteral_no_space.
Qed.

(** Trimming a trimmed value changes nothing. *)
Lemma trim_trim (s : jsstring) : trim (trim s) = trim s.
Proof.
  destruct (trim s) as [|c0 r] eqn:Hval; [done|].
  pose proof (trim_head s c0 r Hval) as Hc0.
  unfold trim at 1. simpl. rewrite Hc0. unfold trimEnd.
  destruct (rev (c0 :: r)) as [|z q] eqn:Hrev;
    apply (f_equal (@rev N)) in Hrev; rewrite rev_involutive in Hrev; simpl in Hrev.
  - discriminate Hrev.
  - pose proof (trim_last s (rev q) z) as Hlast.
    rewrite Hval, Hrev in Hlast. specialize (Hlast eq_refl).
    simpl. by rewrite Hlast, Hrev.
Qed.

(** The number test never rejects a trimmed value that contains a space:
    the fourth condition of the filter follows from the third. *)
Lemma space_isNaN_Number (text : jsstring) :
  32 ∈ trim text → isNaN_Number (trim text) = true.
Proof.
  intros Hin. unfold isNaN_Number. rewrite trim_trim.
  destruct (trim text) as [|c0 r] eqn:Hval; [by apply elem_of_nil in Hin|].
  apply negb_true_iff, not_true_is_false. intros Hnum.
  by apply isStrNumericLiteral_no_space in Hnum.
Qed.

(** What the filter comes to: a cell is selected exactly when its trimmed
    text is longer than 5 code units and contains a space. *)
Lemma candidate_iff_long_with_space (cell : Cell) :
  isCandidate cell = true ↔
  ∃ val : jsstring, cellVal cell = Some val ∧ (5 < length val)%nat ∧ 32 ∈ val.
Proof.
  unfold isCandidate. destruct cell as [|text]; simpl.
  - split; [done|]. by intros (val & Hval & _).
  - rewrite passesFilter_spec. split.
    + intros (_ & Hlen & Hsp & _). by exists (trim text).
    + intros (val & [= <-] & Hlen & Hsp). repeat split; try done.
      * intros Hnil. rewrite Hnil in Hsp. by apply elem_of_nil in Hsp.
      * by apply space_isNaN_Number.
Qed.

(** Every selected cell meets the four conditions of the specification
    wording. *)
Lemma candidate_meets_wording (cell : Cell) :
  isCandidate cell = true → spec_isCandidate cell = true.
Proof.
  unfold isCandidate, spec_isCandidate. destruct cell as [|text]; simpl; [done|].
  rewrite passesFilter_spec. intros (Hne & Hlen & Hsp & Hnan).
  rewrite !andb_true_iff, negb_true_iff, bool_decide_eq_false, N.ltb_lt, N.leb_le.
  pose proof (trimmed_space_two_tokens text Hsp). repeat split; [done | lia | lia | done].
Qed.

(** C2. The word count of the filter is [val.split(' ').length >= 2], which
    separates words at the space character U+0020 only, where the comment
    above it asks for two words or more. So the extractor selects no cell
    whose trimmed text has no space character: two words on two lines of
    one cell, or on either side of a no-break space, meet the four
    conditions of the wording (non-empty after trimming, more than 5
    characters, 2 white-space-separated tokens or more, not a number) and
    are left out of the roster, while the same two words with a space
    between them are extracted. In the other direction the filter agrees
    with the wording: every selected cell meets the four conditions. *)
Theorem candidate_filter_misses_other_white_space :
  (spec_isCandidate cellLineBreak = true ∧
   isCandidate cellLineBreak = false ∧
   extractNamesFromExcel [[cellLineBreak]] = []) ∧
  (spec_isCandidate cellNoBreakSpace = true ∧
   isCandidate cellNoBreakSpace = false ∧
   extractNamesFromExcel [[cellNoBreakSpace]] = []) ∧
  (spec_isCandidate cellSpace = true ∧
   isCandidate cellSpace = true ∧
   extractNamesFromExcel [[cellSpace]] = [js "Ali Hassan"]) ∧
  (∀ (cell : Cell) (val : jsstring),
     cellVal cell = Some val → 32 ∉ val → isCandidate cell = false) ∧
  (∀ cell : Cell, isCandidate cell = true → spec_isCandidate cell = true).
Proof.
  split; [by vm_compute|]. split; [by vm_compute|]. split; [by vm_compute|]. split.
  - intros cell val Hval Hno. apply not_true_is_false. intros Hsel.
    apply candidate_iff_long_with_space in Hsel as (val' & Hval' & _ & Hsp).
    congruence.
  - apply candidate_meets_wording.
Qed.

(** The filter, as the code has it. A cell is selected exactly when it is
    not blank and its trimmed text is non-empty, longer than 5 code units,
    contains a space character (U+0020), that is splits on [' '] into 2
    pieces or more, and does not convert to a number; the names returned
    are the trimmed texts of the selected cells. Every selected cell meets
    the four conditions of the specification wording, and a cell meeting
    them is selected when its trimmed text contains a space character. *)
Theorem candidate_filter_by_space (cell : Cell) :
  (isCandidate cell = true ↔
   ∃ val : jsstring,
     cellVal cell = Some val ∧ val ≠ [] ∧ (5 < length val)%nat ∧
     32 ∈ val ∧ isNaN_Number val = true) ∧
  (isCandidate cell = true → spec_isCandidate cell = true) ∧
  (∀ val : jsstring, cellVal cell = Some val → 32 ∈ val →
     spec_isCandidate cell = true → isCandidate cell = true) ∧
  (∀ (jsonData : list (list Cell)) (val : jsstring),
     val ∈ extractNamesFromExcel jsonData ↔
     ∃ row c, row ∈ jsonData ∧ c ∈ row ∧ cellVal c = Some val ∧ isCandidate c = true).
Proof.
  split; [|split; [|split]].
  - unfold isCandidate. destruct (cellVal cell) as [v|].
    + rewrite passesFilter_spec. split.
      * intros H. by exists v.
      * by intros (val & [= ->] & H).
    + split; [done|]. by intros (val & Hval & _).
  - apply candidate_meets_wording.
  - intros val Hval Hsp. unfold isCandidate, spec_isCandidate.
    destruct cell as [|text]; simpl in *; [done|]. injection Hval as <-.
    rewrite passesFilter_spec.
    rewrite !andb_true_iff, negb_true_iff, bool_decide_eq_false, N.ltb_lt.
    intros [[[Hne Hlen] _] Hnan]. repeat split; [done | lia | done | done].
  - intros jsonData val. unfold extractNamesFromExcel.
    rewrite arrayFromSet_elem_of. apply pushed_elem_of.
Qed.

End ExcelFacts.

(** ** The code-unit order is a total preorder *)

Section CodeUnitOrder.

Lemma codeUnitCompare_total (a b : jsstring) :
  (codeUnitCompare a b <= 0 ∨ codeUnitCompare b a <= 0)%Z.
Proof.
  revert b. induction a as [|x a IH]; intros [|y b]; simpl; try lia.
  destruct (N.ltb_spec x y), (N.ltb_spec y x); try lia. apply IH.
Qed.

Lemma codeUnitCompare_trans (a b c : jsstring) :
  (codeUnitCompare a b <= 0 → codeUnitCompare b c <= 0 → codeUnitCompare a c <= 0)%Z.
Proof.
  revert b c. induction a as [|x a IH]; intros [|y b] [|z c]; simpl; try lia.
  destruct (N.ltb_spec x y), (N.ltb_spec y x), (N.ltb_spec y z), (N.ltb_spec z y),
    (N.ltb_spec x z), (N.ltb_spec z x); try lia.
  apply IH.
Qed.

End CodeUnitOrder.

(** ** Concrete runs *)

Section ConcreteRuns.

(** The round trip of the specification, through [rejectMatch_moves_match]
    at index 0 of the session holding the one match [A] / [A-zoom]: the
    session read back holds nobody present, [A] absent and [A-zoom]
    unexpected. *)
Lemma rejectMatch_moves_match_witness :
  rawResults (reviewing rawA) = Some rawA ∧
  (0 <= 0 < Z.of_nat (length (present rawA)))%Z ∧
  (rejectMatch codeUnitCompare 0 (reviewing rawA)).1 = Returned ∧
  ∃ raw' : ProcessingResult,
    rawResults (rejectMatch codeUnitCompare 0 (reviewing rawA)).2 = Some raw' ∧
    raw' =
      {| present := [];
         absent := [{| name := js "A"; status := ABSENT; originalName := None |}];
         unexpected := [{| name := js "A-zoom"; status := UNEXPECTED;
                           originalName := None |}] |} ∧
    {| name := js "A"; status := ABSENT; originalName := None |} ∈ absent raw' ∧
    {| name := js "A-zoom"; status := UNEXPECTED; originalName := None |}
      ∈ unexpected raw'.
Proof.
  split; [reflexivity|]. split; [simpl; lia|].
  destruct (rejectMatch_moves_match codeUnitCompare (reviewing rawA) rawA 0 eq_refl)
    as (m & raw' & Hm & Hrun & Hraw' & Hp & _ & Ha & _ & Hu & _); [simpl; lia|].
  injection Hm as <-. split; [exact Hrun|]. exists raw'.
  split; [exact Hraw'|]. split; [|split; [exact Ha | exact (Hu (js "A-zoom") eq_refl)]].
  assert (Hval : rawResults (rejectMatch codeUnitCompare 0 (reviewing rawA)).2 =
                 Some {| present := [];
                         absent := [{| name := js "A"; status := ABSENT;
                                       originalName := None |}];
                         unexpected := [{| name := js "A-zoom"; status := UNEXPECTED;
                                           originalName := None |}] |})
    by reflexivity.
  rewrite Hraw' in Hval. by injection Hval.
Defined.

(** Index 1 and index -1 are outside a present bucket of length 1. *)
Lemma rejectMatch_out_of_range_witness :
  rejectMatch codeUnitCompare 1 (reviewing rawA) = (Thrown TypeError, reviewing rawA) ∧
  rejectMatch codeUnitCompare (-1) (reviewing rawA) = (Thrown TypeError, reviewing rawA).
Proof.
  split.
  - apply (rejectMatch_out_of_range codeUnitCompare (reviewing rawA) rawA 1);
      [reflexivity | right; simpl; lia].
  - apply (rejectMatch_out_of_range codeUnitCompare (reviewing rawA) rawA (-1));
      [reflexivity | left; lia].
Defined.

(** Rejecting [B], which has no originalName, puts the empty name before
    [D] in the unexpected bucket of the session read back. *)
Lemma rejectMatch_missing_originalName_witness :
  ∃ raw' : ProcessingResult,
    (rejectMatch codeUnitCompare 0 (reviewing rawBare)).1 = Returned ∧
    rawResults (rejectMatch codeUnitCompare 0 (reviewing rawBare)).2 = Some raw' ∧
    unexpected raw' =
      [{| name := []; status := UNEXPECTED; originalName := None |}; unexpectedD] ∧
    {| name := []; status := UNEXPECTED; originalName := None |} ∈ unexpected raw' ∧
    length (unexpected raw') = S (length (unexpected rawBare)).
Proof.
  destruct (rejectMatch_missing_originalName codeUnitCompare (reviewing rawBare) rawBare 0
              matchBare eq_refl eq_refl (or_introl eq_refl))
    as (raw' & Hrun & Hraw' & Hin & _ & Hlen).
  exists raw'. split; [exact Hrun|]. split; [exact Hraw'|].
  split; [|split; [exact Hin | exact Hlen]].
  assert (Hval : unexpected <$> rawResults (rejectMatch codeUnitCompare 0 (reviewing rawBare)).2 =
                 Some [{| name := []; status := UNEXPECTED; originalName := None |};
                       unexpectedD])
    by reflexivity.
  rewrite Hraw' in Hval. by injection Hval.
Defined.

(** C6 as stated fails: after [finalizeReport] the raw session is still in
    the state. *)
Lemma finalizeReport_discards_raw_counterexample :
  ¬ (∀ (st : AppState) (raw : ProcessingResult),
       rawResults st = Some raw → rawResults (finalizeReport st).2 = None).
Proof. intros H. discriminate (H (reviewing rawA) rawA eq_refl). Qed.

Lemma finalizeReport_keeps_raw_witness :
  ∃ st' : AppState,
    finalizeReport (reviewing rawA) = (Returned, st') ∧
    finalResults st' = Some rawA ∧
    isReviewing st' = false ∧
    rawResults st' = Some rawA ∧
    selectedNames st' = selectedNames (reviewing rawA) ∧
    showBulkConfirm st' = showBulkConfirm (reviewing rawA) ∧
    pendingStatus st' = pendingStatus (reviewing rawA).
Proof. apply (finalizeReport_keeps_raw (reviewing rawA) rawA). reflexivity. Defined.

(** C8 as stated fails: [finalizeReport] without a session returns
    normally. *)
Lemma finalizeReport_no_session_counterexample :
  ¬ (∀ st : AppState,
       rawResults st = None → ∃ e : JsError, (finalizeReport st).1 = Thrown e).
Proof. intros H. destruct (H initialState eq_refl) as [e He]. discriminate He. Qed.

Lemma finalizeReport_no_session_witness :
  finalizeReport initialState = (Returned, initialState).
Proof. apply (finalizeReport_no_session initialState). reflexivity. Defined.

(** C4 as stated fails: rejecting a match whose two forms are the same
    string, from buckets without shared or duplicate names, leaves that
    name in both the absent and the unexpected bucket. *)
Lemma names_distinct_counterexample :
  ¬ (∀ (cmp : jsstring → jsstring → Z) (st : AppState) (index : Z)
       (raw raw' : ProcessingResult),
       rawResults st = Some raw →
       namesDistinct raw →
       rawResults (rejectMatch cmp index st).2 = Some raw' →
       namesDistinct raw').
Proof.
  intros H.
  assert (Hbefore : namesDistinct rawSame).
  { apply namesDistinct_NoDup. exact (NoDup_singleton (js "A")). }
  destruct (H codeUnitCompare (reviewing rawSame) 0%Z rawSame _ eq_refl Hbefore eq_refl)
    as [Hshare _].
  destruct (Hshare (js "A")) as (_ & _ & Hau). apply Hau.
  split; simpl; apply list_elem_of_singleton; reflexivity.
Qed.

(** C2 as stated fails: two words on two lines of one cell are two
    white-space-separated tokens, and the cell is not selected. *)
Lemma candidate_filter_counterexample :
  ¬ (∀ cell : Cell, isCandidate cell = true ↔ spec_isCandidate cell = true).
Proof.
  intros H. destruct (H cellLineBreak) as [_ Hback].
  assert (Hsel : isCandidate cellLineBreak = true) by (apply Hback; reflexivity).
  vm_compute in Hsel. discriminate Hsel.
Qed.

(** The staged move of [A] and [D] to Absent: [B] alone stays present,
    and the absent bucket reads [A], [C], [D] in that order. *)
Lemma bulk_change_moves_selected_witness :
  finalResults staged = Some finalABCD ∧
  pendingStatus staged = Some ABSENT ∧
  ∃ (next : ProcessingResult) (st' : AppState),
    handleBulkStatusChange codeUnitCompare staged = (Returned, st') ∧
    finalResults st' = Some next ∧
    next =
      {| present := [matchBare];
         absent := [withStatus ABSENT matchA; absentC; withStatus ABSENT unexpectedD];
         unexpected := [] |} ∧
    withStatus ABSENT matchA ∈ absent next ∧
    withStatus ABSENT unexpectedD ∈ absent next ∧
    (∀ s : AttendanceStatus,
       Sorted (λ a b : Attendee, (codeUnitCompare (name a) (name b) <= 0)%Z)
         (bucket s next)) ∧
    selectedNames st' = ∅.
Proof.
  split; [reflexivity|]. split; [reflexivity|].
  destruct (bulk_change_moves_selected codeUnitCompare codeUnitCompare_total
              staged finalABCD ABSENT eq_refl eq_refl)
    as (next & st' & Hrun & Hfin & Hmove & _ & _ & Hsorted & Hsel & _).
  exists next, st'. split; [exact Hrun|]. split; [exact Hfin|].
  split; [|split; [|split; [|split; [exact Hsorted | exact Hsel]]]].
  - assert (Hval : finalResults (handleBulkStatusChange codeUnitCompare staged).2 =
                   Some {| present := [matchBare];
                           absent := [withStatus ABSENT matchA; absentC;
                                      withStatus ABSENT unexpectedD];
                           unexpected := [] |})
      by (vm_compute; reflexivity).
    rewrite Hrun in Hval. simpl in Hval. rewrite Hfin in Hval. by injection Hval.
  - apply (Hmove matchA).
    + left.
    + apply elem_of_union. left. apply elem_of_singleton. reflexivity.
  - apply (Hmove unexpectedD).
    + do 3 right. left.
    + apply elem_of_union. right. apply elem_of_singleton. reflexivity.
Defined.

Lemma bulk_change_preserves_attendees_witness :
  ∃ next : ProcessingResult,
    finalResults (handleBulkStatusChange codeUnitCompare staged).2 = Some next ∧
    allOf next ≡ₚ retarget (selectedNames staged) ABSENT <$> allOf finalABCD ∧
    filter (λ a, name a ∉ selectedNames staged) (allOf next) ≡ₚ
      filter (λ a, name a ∉ selectedNames staged) (allOf finalABCD) ∧
    length (allOf next) = length (allOf finalABCD).
Proof.
  apply (bulk_change_preserves_attendees codeUnitCompare staged finalABCD ABSENT);
    reflexivity.
Defined.

(** Ingest of an unsorted oracle answer, then a rejection, then
    finalization: the session after these three operations. *)
Lemma buckets_sorted_after_every_operation_witness :
  let es := [EIngest oracleAnswer; ERejectMatch 0; EFinalize] in
  ∃ r : ProcessingResult,
    finalResults (run codeUnitCompare es initialState) = Some r ∧
    present r = [matchBare] ∧
    bucketsSorted codeUnitCompare r ∧
    sortFn codeUnitCompare (absent r) = absent r.
Proof.
  simpl.
  eexists. split; [reflexivity|]. split; [reflexivity|].
  edestruct (buckets_sorted_after_every_operation codeUnitCompare
               codeUnitCompare_total codeUnitCompare_trans
               [EIngest oracleAnswer; ERejectMatch 0; EFinalize])
    as (Hsorted & (_ & Ha & _) & _); [right; reflexivity|].
  split; [exact Hsorted | exact Ha].
Defined.

(** The three cells of the specification's examples, and a repeated name. *)
Example candidate_examples :
  isCandidate (CellValue (js "12345")) = false ∧
  isCandidate (CellValue (js "Ali")) = false ∧
  isCandidate (CellValue (js "Ali Hassan")) = true ∧
  isCandidate (CellValue (js "1234567")) = false ∧
  isCandidate CellBlank = false ∧
  extractNamesFromExcel
    [[CellValue (js "Ali Hassan"); CellBlank; CellValue (js "42")];
     [CellValue (js "  Ali Hassan "); CellValue (js "Omar Said")]]
  = [js "Ali Hassan"; js "Omar Said"].
Proof. repeat split; reflexivity. Qed.

(** The scenario of the specification: the oracle pairs [A] and [B] with
    themselves; rejecting the match of [A] puts [A] into both the absent and
    the unexpected bucket. *)
Example scenario_reject_A :
  let oracle :=
    {| present := [{| name := js "A"; status := PRESENT; originalName := Some (js "A") |};
                   {| name := js "B"; status := PRESENT; originalName := Some (js "B") |}];
       absent := [absentC]; unexpected := [unexpectedD] |} in
  rawResults (run codeUnitCompare [EIngest oracle; ERejectMatch 0] initialState) =
  Some {| present := [{| name := js "B"; status := PRESENT; originalName := Some (js "B") |}];
          absent := [{| name := js "A"; status := ABSENT; originalName := None |}; absentC];
          unexpected := [{| name := js "A"; status := UNEXPECTED; originalName := None |};
                         unexpectedD] |}.
Proof. reflexivity. Qed.

End ConcreteRuns.

(** ** Deduplication and the adapter around the model calls *)

Section AdapterFacts.

Lemma fold_setAdd_elem_of (l acc : list jsstring) (n : jsstring) :
  n ∈ fold_left setAdd l acc ↔ n ∈ acc ∨ n ∈ l.
Proof. exact (arrayFromSet_acc l acc n). Qed.

Lemma fold_setAdd_NoDup (l acc : list jsstring) :
  NoDup acc → NoDup (fold_left setAdd l acc).
Proof.
  revert acc. induction l as [|x l IH]; intros acc Hacc; simpl; [done|].
  apply IH. unfold setAdd. case_bool_decide as Hx; [done|].
  apply NoDup_app. split; [done|]. split; [|apply NoDup_singleton].
  by intros y Hy ->%list_elem_of_singleton.
Qed.

(** Adding names that are all there already changes nothing. *)
Lemma fold_setAdd_absorb (l acc : list jsstring) :
  (∀ n, n ∈ l → n ∈ acc) → fold_left setAdd l acc = acc.
Proof.
  induction l as [|x l IH]; intros Hin; simpl; [done|].
  unfold setAdd at 2. rewrite bool_decide_eq_true_2 by (apply Hin; left).
  apply IH. intros n Hn. apply Hin. by right.
Qed.

Lemma arrayFromSet_fold (l : list jsstring) : arrayFromSet l = fold_left setAdd l [].
Proof. done. Qed.

Lemma pushed_app (g g' : list (list Cell)) : pushed (g ++ g') = pushed g ++ pushed g'.
Proof. unfold pushed. apply flat_map_app. Qed.

Lemma pushed_trimmed (g : list (list Cell)) (n : jsstring) :
  n ∈ pushed g → trim n = n.
Proof.
  intros (row & cell & _ & _ & Hval & _)%pushed_elem_of.
  destruct cell as [|text]; [done|]. simpl in Hval. injection Hval as <-.
  apply trim_trim.
Qed.

(** X1. The roster read from a sheet has no name twice, every name in it is
    its own trimmed form, and rows that only repeat names already read
    add nothing: the result is the one of the sheet without them. *)
Theorem extractNamesFromExcel_deduplicates (g g' : list (list Cell)) :
  (∀ n : jsstring, n ∈ extractNamesFromExcel g' → n ∈ extractNamesFromExcel g) →
  NoDup (extractNamesFromExcel (g ++ g')) ∧
  (∀ n : jsstring, n ∈ extractNamesFromExcel (g ++ g') → trim n = n) ∧
  extractNamesFromExcel (g ++ g') = extractNamesFromExcel g.
Proof.
  intros Hsub. unfold extractNamesFromExcel in *. split; [apply arrayFromSet_NoDup|].
  split.
  - intros n Hn. apply (proj1 (arrayFromSet_elem_of _ _)) in Hn.
    by apply (pushed_trimmed (g ++ g')).
  - rewrite pushed_app, !arrayFromSet_fold, fold_left_app.
    apply fold_setAdd_absorb. intros n Hn.
    rewrite <- arrayFromSet_fold. apply Hsub. by apply arrayFromSet_elem_of.
Qed.

(** *** Names read from an image *)

Lemma split_piece_no_sep (sep : N) (s piece : jsstring) :
  piece ∈ split sep s → sep ∉ piece.
Proof.
  revert piece. induction s as [|c s IH]; intros piece; simpl.
  - intros ->%list_elem_of_singleton. apply not_elem_of_nil.
  - destruct (N.eqb_spec c sep) as [-> | Hne].
    + intros [-> | Hin]%elem_of_cons; [apply not_elem_of_nil | by apply IH].
    + destruct (split sep s) as [|p ps] eqn:Hsplit.
      * intros ->%list_elem_of_singleton. apply not_elem_of_cons.
        split; [done | apply not_elem_of_nil].
      * intros [-> | Hin]%elem_of_cons.
        -- apply not_elem_of_cons. split; [done|]. apply IH. left.
        -- apply IH. by right.
Qed.

Lemma elem_of_trimStart (c : N) (s : jsstring) : c ∈ trimStart s → c ∈ s.
Proof.
  destruct (trimStart_decomp s) as (p & Hs & _). intros Hin.
  rewrite Hs. apply elem_of_app. by right.
Qed.

Lemma elem_of_trim (c : N) (s : jsstring) : c ∈ trim s → c ∈ s.
Proof.
  unfold trim, trimEnd. intros Hin.
  apply list_elem_of_In, in_rev, list_elem_of_In, elem_of_trimStart in Hin.
  apply list_elem_of_In, in_rev, list_elem_of_In in Hin.
  by apply elem_of_trimStart.
Qed.

(** X2. Every name taken from the text of a model answer is its own trimmed
    form, is longer than 2 code units and holds no line feed; a missing or
    empty text, and a failed call, give no name at all. *)
Theorem extractNamesFromImage_names (reply : Reply) :
  (∀ n : jsstring, n ∈ Gemini.extractNamesFromImage reply →
     trim n = n ∧ (2 < length n)%nat ∧ 10 ∉ n) ∧
  (reply = CallFailed ∨ reply = Answer None ∨ reply = Answer (Some []) →
     Gemini.extractNamesFromImage reply = []).
Proof.
  split.
  - intros n. destruct reply as [|text]; simpl; [by intros ?%elem_of_nil|].
    unfold answerNames. rewrite list_elem_of_filter, list_elem_of_fmap.
    intros (Hlen & line & -> & Hline). split; [apply trim_trim|]. split; [done|].
    intros Hin%elem_of_trim. by apply (split_piece_no_sep 10 _ line Hline).
  - intros [-> | [-> | ->]]; reflexivity.
Qed.

(** *** The payload of a data URL *)

Lemma startsWith_nil (s : jsstring) : startsWith s [] = true.
Proof. by destruct s. Qed.

Lemma startsWith_singleton (s : jsstring) (c : N) :
  startsWith s [c] = true ↔ ∃ r, s = c :: r.
Proof.
  destruct s as [|x s]; simpl.
  - split; [done | by intros [r Hr]].
  - rewrite startsWith_nil, andb_true_r, N.eqb_eq. split; [intros ->; by exists s | by intros [r [= -> _]]].
Qed.

Lemma includes_singleton (s : jsstring) (c : N) : includes s [c] = true ↔ c ∈ s.
Proof.
  induction s as [|x s IH].
  - simpl. split; [done | by intros ?%elem_of_nil].
  - cbn [includes]. rewrite orb_true_iff, IH, startsWith_singleton, elem_of_cons.
    split.
    + intros [[r [= -> _]] | Hin]; [by left | by right].
    + intros [-> | Hin]; [left; by exists s | by right].
Qed.

Lemma split_no_sep (sep : N) (s : jsstring) : sep ∉ s → split sep s = [s].
Proof.
  induction s as [|c s IH]; [done|]. intros [Hne Hs]%not_elem_of_cons. simpl.
  destruct (N.eqb_spec c sep) as [-> | _]; [done|]. by rewrite (IH Hs).
Qed.

Lemma split_app_sep (sep : N) (h rest : jsstring) :
  sep ∉ h → split sep (h ++ sep :: rest) = h :: split sep rest.
Proof.
  induction h as [|c h IH]; intros Hh; simpl.
  - by rewrite N.eqb_refl.
  - apply not_elem_of_cons in Hh as [Hne Hh].
    destruct (N.eqb_spec c sep) as [-> | _]; [done|]. by rewrite (IH Hh).
Qed.


(** X4. A data URL, a header and a payload around one comma, gives its
    payload; a bare payload gives itself. *)
Theorem imageData_of_data_url (header payload : jsstring) :
  44 ∉ header → 44 ∉ payload →
  imageData (header ++ 44 :: payload) = Some payload ∧
  imageData payload = Some payload.
Proof.
  intros Hh Hp. unfold imageData. split.
  - rewrite (proj2 (includes_singleton (header ++ 44 :: payload) 44))
      by (apply elem_of_app; right; left).
    by rewrite (split_app_sep 44 header payload Hh), (split_no_sep 44 payload Hp).
  - destruct (includes payload [44]) eqn:Hinc; [|done].
    by apply includes_singleton in Hinc.
Qed.

(** *** Names seen across the screenshots *)

Lemma zoomNames_acc (replies : list Reply) (acc : list jsstring) (n : jsstring) :
  n ∈ fold_left (λ acc reply, fold_left setAdd (Gemini.extractNamesFromImage reply) acc)
        replies acc
  ↔ n ∈ acc ∨ ∃ reply, reply ∈ replies ∧ n ∈ Gemini.extractNamesFromImage reply.
Proof.
  revert acc. induction replies as [|r replies IH]; intros acc; simpl.
  - split; [by left|]. intros [?|(reply & ?%elem_of_nil & _)]; done.
  - rewrite IH, fold_setAdd_elem_of. split.
    + intros [[Hacc | Hr] | (reply & Hin & Hn)].
      * by left.
      * right. exists r. split; [left | done].
      * right. exists reply. split; [by right | done].
    + intros [Hacc | (reply & [-> | Hin]%elem_of_cons & Hn)].
      * left. by left.
      * left. by right.
      * right. by exists reply.
Qed.

Lemma zoomNames_acc_NoDup (replies : list Reply) (acc : list jsstring) :
  NoDup acc →
  NoDup (fold_left (λ acc reply, fold_left setAdd (Gemini.extractNamesFromImage reply) acc)
           replies acc).
Proof.
  revert acc. induction replies as [|r replies IH]; intros acc Hacc; simpl; [done|].
  by apply IH, fold_setAdd_NoDup.
Qed.

(** X5. The names seen in the session are collected without repetition, a
    name is among them exactly when some screenshot yielded it, and a
    screenshot whose model call failed changes nothing. *)
Theorem zoomNames_union (replies more : list Reply) :
  NoDup (zoomNames replies) ∧
  (∀ n : jsstring,
     n ∈ zoomNames replies ↔
     ∃ reply, reply ∈ replies ∧ n ∈ Gemini.extractNamesFromImage reply) ∧
  zoomNames (replies ++ CallFailed :: more) = zoomNames (replies ++ more).
Proof.
  split; [apply zoomNames_acc_NoDup; constructor|]. split.
  - intros n. unfold zoomNames. rewrite zoomNames_acc. split.
    + by intros [?%elem_of_nil | H].
    + by right.
  - unfold zoomNames. by rewrite !fold_left_app.
Qed.

End AdapterFacts.

(** ** More about the engine *)

Section EngineExtras.

Variable localeCompare : jsstring → jsstring → Z.

#[local] Abbreviation sortFn := (Engine.sortFn localeCompare).
#[local] Abbreviation nameLe := (Engine.nameLe localeCompare).

Lemma filter_all {B : Type} (P : B → Prop) `{!∀ x, Decision (P x)} (l : list B) :
  (∀ x, x ∈ l → P x) → filter P l = l.
Proof.
  induction l as [|x l IH]; intros Hall; [done|].
  rewrite filter_cons_True by (apply Hall; left).
  f_equal. apply IH. intros y Hy. apply Hall. by right.
Qed.

Lemma filter_none {B : Type} (P : B → Prop) `{!∀ x, Decision (P x)} (l : list B) :
  (∀ x, x ∈ l → ¬ P x) → filter P l = [].
Proof.
  induction l as [|x l IH]; intros Hall; [done|].
  rewrite filter_cons_False by (apply Hall; left).
  apply IH. intros y Hy. apply Hall. by right.
Qed.

(** The attendees of a status, out of all three buckets, are the bucket of
    that status when the status fields agree with the buckets. *)
Lemma filter_status_allOf (r : ProcessingResult) (s : AttendanceStatus) :
  statusConsistent r → filter (λ a, status a = s) (allOf r) = bucket s r.
Proof.
  intros Hc. unfold allOf. rewrite !filter_app.
  assert (Hin : ∀ s', filter (λ a, status a = s) (bucket s' r) =
                      if decide (s' = s) then bucket s' r else []).
  { intros s'. case_decide as Hs.
    - apply filter_all. intros a Ha. rewrite <- Hs. by apply Hc.
    - apply filter_none. intros a Ha Hsa. apply Hs. rewrite <- Hsa. symmetry. by apply Hc. }
  pose proof (Hin PRESENT) as Hp. pose proof (Hin ABSENT) as Ha.
  pose proof (Hin UNEXPECTED) as Hu. simpl in Hp, Ha, Hu. rewrite Hp, Ha, Hu.
  destruct s; simpl; by rewrite ?app_nil_r.
Qed.

Lemma bulk_bucket (st : AppState) (fin : ProcessingResult) (target : AttendanceStatus) :
  finalResults st = Some fin →
  pendingStatus st = Some target →
  ∃ next : ProcessingResult,
    handleBulkStatusChange localeCompare st =
      (Returned,
       setPendingStatus None
         (setShowBulkConfirm false (setSelectedNames ∅ (setFinalResults (Some next) st)))) ∧
    ∀ s : AttendanceStatus,
      bucket s next =
      sortFn (filter (λ a, status a = s)
                (filter (λ a, name a ∉ selectedNames st) (allOf fin) ++
                 (withStatus target <$> filter (λ a, name a ∈ selectedNames st) (allOf fin)))).
Proof.
  intros Hfin Hpend.
  rewrite (handleBulkStatusChange_unfold localeCompare st fin target Hfin Hpend).
  eexists. split; [done|]. by intros [].
Qed.

Lemma toProcessingResult_statusConsistent (res : MatchResponse) :
  statusConsistent (toProcessingResult res).
Proof.
  intros s a. destruct s; simpl; intros (x & -> & _)%list_elem_of_fmap; done.
Qed.

Lemma ingest_stateConsistent (res : ProcessingResult) (st : AppState) :
  statusConsistent res → stateConsistent st →
  stateConsistent (ingest localeCompare res st).2.
Proof.
  intros Hres Hst r [Hr | Hr]; simpl in Hr.
  - injection Hr as <-. intros s a. destruct s; simpl;
      rewrite sortFn_elem_of; [apply (Hres PRESENT) | apply (Hres ABSENT) | apply (Hres UNEXPECTED)].
  - apply Hst. by right.
Qed.

Lemma rejectMatch_stateConsistent (index : Z) (st : AppState) :
  stateConsistent st → stateConsistent (rejectMatch localeCompare index st).2.
Proof.
  intros Hst. destruct (rawResults st) as [raw|] eqn:Hraw.
  - destruct (arrayGet (present raw) index) as [m|] eqn:Hget.
    + rewrite (rejectMatch_unfold localeCompare st raw index m Hraw Hget).
      assert (Hc : statusConsistent raw) by (apply Hst; by left).
      intros r [Hr | Hr]; simpl in Hr; [|apply Hst; by right].
      injection Hr as <-. intros s a. destruct s; simpl.
      * intros Ha. apply (Hc PRESENT). simpl.
        eapply elem_of_sublist; [exact Ha | apply sublist_delete].
      * rewrite sortFn_elem_of, elem_of_app, list_elem_of_singleton.
        intros [Ha | ->]; [by apply (Hc ABSENT) | done].
      * rewrite sortFn_elem_of, elem_of_app, list_elem_of_singleton.
        intros [Ha | ->]; [by apply (Hc UNEXPECTED) | done].
    + unfold rejectMatch. by rewrite Hraw, Hget.
  - unfold rejectMatch. by rewrite Hraw.
Qed.

Lemma finalizeReport_stateConsistent (st : AppState) :
  stateConsistent st → stateConsistent (finalizeReport st).2.
Proof.
  intros Hst. unfold finalizeReport.
  destruct (rawResults st) as [raw|] eqn:Hraw; [|done].
  intros r [Hr | Hr]; simpl in Hr; apply Hst; left; congruence.
Qed.

Lemma handleBulkStatusChange_stateConsistent (st : AppState) :
  stateConsistent st → stateConsistent (handleBulkStatusChange localeCompare st).2.
Proof.
  intros Hst.
  destruct (finalResults st) as [fin|] eqn:Hfin;
    [destruct (pendingStatus st) as [target|] eqn:Hpend|].
  - destruct (bulk_bucket st fin target Hfin Hpend) as (next & -> & Hb).
    intros r [Hr | Hr]; simpl in Hr; [apply Hst; by left|].
    injection Hr as <-. intros s a. rewrite Hb, sortFn_elem_of, list_elem_of_filter.
    by intros [? _].
  - unfold handleBulkStatusChange. by rewrite Hfin, Hpend.
  - unfold handleBulkStatusChange. by rewrite Hfin.
Qed.

Lemma handle_stateConsistent (e : Event) (st : AppState) :
  fromAdapter e → stateConsistent st → stateConsistent (handle localeCompare e st).2.
Proof.
  intros He Hst. destruct e as [res|index| |n|s| | |c|]; simpl; try done.
  - destruct (He res eq_refl) as [r ->].
    apply ingest_stateConsistent; [apply toProcessingResult_statusConsistent | done].
  - by apply rejectMatch_stateConsistent.
  - by apply finalizeReport_stateConsistent.
  - by apply handleBulkStatusChange_stateConsistent.
  - destruct c; simpl; [|done]. intros r [Hr | Hr]; discriminate Hr.
Qed.

(** X6. As long as every stored oracle answer was built by
    [processAttendance], the status field of every attendee names the
    bucket the attendee is in, in the session and in the finalized
    classification, after any sequence of operations. *)
Theorem status_fields_match_buckets (es : list Event) :
  Forall fromAdapter es →
  stateConsistent (run localeCompare es initialState).
Proof.
  intros Hes.
  assert (H : ∀ st, stateConsistent st → stateConsistent (run localeCompare es st)).
  { induction Hes as [|e es He Hes IH]; intros st Hst; simpl; [done|].
    apply IH. by apply handle_stateConsistent. }
  apply H. intros r [Hr | Hr]; discriminate Hr.
Qed.

(** *** Bulk change on a consistent classification *)

Lemma filter_status_moved (sel : gset jsstring) (target s : AttendanceStatus) (l : list Attendee) :
  filter (λ a, status a = s) (withStatus target <$> filter (λ a, name a ∈ sel) l) =
  if decide (s = target) then withStatus target <$> filter (λ a, name a ∈ sel) l else [].
Proof.
  case_decide as Hs.
  - apply filter_all. intros a (x & -> & _)%list_elem_of_fmap. done.
  - apply filter_none. intros a (x & -> & _)%list_elem_of_fmap Hx. by apply Hs.
Qed.

Lemma filter_status_remaining (r : ProcessingResult) (sel : gset jsstring) (s : AttendanceStatus) :
  statusConsistent r →
  filter (λ a, status a = s) (filter (λ a, name a ∉ sel) (allOf r)) =
  filter (λ a, name a ∉ sel) (bucket s r).
Proof.
  intros Hc. rewrite <- (filter_status_allOf r s Hc).
  rewrite !list_filter_filter. apply list_filter_iff. intros a. tauto.
Qed.

Section SortedBuckets.

Hypothesis localeCompare_trans :
  ∀ a b c : jsstring,
    (localeCompare a b <= 0 → localeCompare b c <= 0 → localeCompare a c <= 0)%Z.

Lemma Sorted_filter (P : Attendee → Prop) `{!∀ x, Decision (P x)} (l : list Attendee) :
  Sorted nameLe l → Sorted nameLe (filter P l).
Proof.
  intros Hs.
  assert (Htr : Transitive nameLe).
  { intros x y z. unfold Engine.nameLe, byName. apply localeCompare_trans. }
  apply Sorted_StronglySorted in Hs; [|done]. apply StronglySorted_Sorted.
  induction Hs as [|x l Hs IH Hall]; [constructor|].
  rewrite filter_cons. case_decide; [|done].
  constructor; [done|]. apply Forall_forall. intros y [_ Hy]%list_elem_of_filter.
  rewrite Forall_forall in Hall. by apply Hall.
Qed.

(** X7. On a classification whose status fields agree with its buckets and
    whose buckets are sorted, a confirmed bulk change leaves every bucket
    other than the target exactly as it was, minus the selected attendees,
    and the target bucket holds its unselected attendees together with
    all the selected ones. *)
Theorem bulk_change_keeps_unselected_in_place
    (st : AppState) (fin : ProcessingResult) (target : AttendanceStatus) :
  finalResults st = Some fin →
  pendingStatus st = Some target →
  statusConsistent fin →
  bucketsSorted localeCompare fin →
  ∃ next : ProcessingResult,
    finalResults (handleBulkStatusChange localeCompare st).2 = Some next ∧
    (∀ s : AttendanceStatus, s ≠ target →
       bucket s next = filter (λ a, name a ∉ selectedNames st) (bucket s fin)) ∧
    bucket target next ≡ₚ
      filter (λ a, name a ∉ selectedNames st) (bucket target fin) ++
      (withStatus target <$> filter (λ a, name a ∈ selectedNames st) (allOf fin)).
Proof.
  intros Hfin Hpend Hc (Hp & Ha & Hu).
  destruct (bulk_bucket st fin target Hfin Hpend) as (next & -> & Hb).
  exists next. split; [done|]. split.
  - intros s Hs. rewrite Hb, filter_app, filter_status_moved, decide_False by done.
    rewrite app_nil_r, (filter_status_remaining fin _ s Hc).
    apply sortFn_Sorted_id, Sorted_filter. by destruct s.
  - rewrite Hb, sortFn_Permutation, filter_app, filter_status_moved, decide_True by done.
    by rewrite (filter_status_remaining fin _ target Hc).
Qed.

End SortedBuckets.

(** X8. A confirmed bulk change with nothing selected leaves such a
    classification as it is. *)
Theorem bulk_change_empty_selection
    (st : AppState) (fin : ProcessingResult) (target : AttendanceStatus) :
  finalResults st = Some fin →
  pendingStatus st = Some target →
  selectedNames st = ∅ →
  statusConsistent fin →
  bucketsSorted localeCompare fin →
  finalResults (handleBulkStatusChange localeCompare st).2 = Some fin.
Proof.
  intros Hfin Hpend Hsel Hc (Hp & Ha & Hu).
  destruct (bulk_bucket st fin target Hfin Hpend) as (next & -> & Hb).
  simpl. f_equal.
  assert (Hs : ∀ s, bucket s next = bucket s fin).
  { intros s. rewrite Hb, Hsel.
    rewrite (filter_all (λ a, name a ∉ (∅ : gset jsstring)))
      by (intros; apply not_elem_of_empty).
    rewrite (filter_none (λ a, name a ∈ (∅ : gset jsstring)))
      by (intros; apply not_elem_of_empty).
    simpl. rewrite app_nil_r, (filter_status_allOf fin s Hc).
    apply sortFn_Sorted_id. by destruct s. }
  pose proof (Hs PRESENT) as H1. pose proof (Hs ABSENT) as H2.
  pose proof (Hs UNEXPECTED) as H3. simpl in H1, H2, H3.
  destruct next, fin; simpl in *; congruence.
Qed.

(** X9. Confirming a second time does nothing: the first confirmation, when
    it acts, clears the staged status, and the handler returns at once
    without one. *)
Theorem bulk_change_confirm_twice (st : AppState) :
  handleBulkStatusChange localeCompare (handleBulkStatusChange localeCompare st).2 =
  (Returned, (handleBulkStatusChange localeCompare st).2).
Proof.
  destruct (finalResults st) as [fin|] eqn:Hfin;
    [destruct (pendingStatus st) as [target|] eqn:Hpend|].
  - rewrite (handleBulkStatusChange_unfold localeCompare st fin target Hfin Hpend).
    done.
  - assert (Hsame : handleBulkStatusChange localeCompare st = (Returned, st))
      by (unfold handleBulkStatusChange; by rewrite Hfin, Hpend).
    by rewrite Hsame.
  - assert (Hsame : handleBulkStatusChange localeCompare st = (Returned, st))
      by (unfold handleBulkStatusChange; by rewrite Hfin).
    by rewrite Hsame.
Qed.

(** *** Counts *)

(** X10. Rejecting a match takes one attendee out of the present bucket and
    adds one to each of the other two: the number of roster entries,
    present plus absent, stays the same, and the three buckets together
    hold one attendee more. *)
Theorem rejectMatch_counts (st : AppState) (raw : ProcessingResult) (index : Z) :
  rawResults st = Some raw →
  (0 <= index < Z.of_nat (length (present raw)))%Z →
  ∃ raw' : ProcessingResult,
    rawResults (rejectMatch localeCompare index st).2 = Some raw' ∧
    S (length (present raw')) = length (present raw) ∧
    length (absent raw') = S (length (absent raw)) ∧
    length (unexpected raw') = S (length (unexpected raw)) ∧
    rosterCount raw' = rosterCount raw ∧
    length (allOf raw') = S (length (allOf raw)).
Proof.
  intros Hraw Hrange.
  destruct (lookup_lt_is_Some_2 (present raw) (Z.to_nat index)) as [m Hm]; [lia|].
  assert (Hget : arrayGet (present raw) index = Some m)
    by (apply arrayGet_Some; split; [lia | done]).
  rewrite (rejectMatch_unfold localeCompare st raw index m Hraw Hget).
  eexists. split; [done|]. unfold rosterCount, allOf, Engine.sortFn. simpl.
  rewrite !length_app, !arraySort_length, !length_app, length_delete by eauto.
  simpl. apply lookup_lt_Some in Hm. lia.
Qed.

(** *** Who writes what *)

(** X11. The session is written only by ingest, by [rejectMatch] and by
    reset; the finalized classification only by finalize, by a confirmed
    bulk change and by reset; the selection only by a toggle, by the clear
    button, by a confirmed bulk change and by reset. *)
Theorem handlers_frame (e : Event) (st : AppState) :
  ((∀ res, e ≠ EIngest res) → (∀ i, e ≠ ERejectMatch i) → (∀ c, e ≠ EReset c) →
     rawResults (handle localeCompare e st).2 = rawResults st) ∧
  (e ≠ EFinalize → e ≠ EConfirmBulk → (∀ c, e ≠ EReset c) →
     finalResults (handle localeCompare e st).2 = finalResults st) ∧
  ((∀ n, e ≠ EToggle n) → e ≠ EClearSelection → e ≠ EConfirmBulk →
     (∀ c, e ≠ EReset c) →
     selectedNames (handle localeCompare e st).2 = selectedNames st).
Proof.
  destruct e as [res|index| |n|s| | |c|]; simpl; repeat split; intros;
    try done;
    try (exfalso; match goal with H : ∀ x, _ ≠ _ |- _ => by eapply H end);
    try (match goal with H : ?a ≠ ?a |- _ => by destruct H end).
  - unfold rejectMatch. destruct (rawResults st) as [raw|]; [|done].
    by destruct (arrayGet (present raw) index).
  - unfold rejectMatch. destruct (rawResults st) as [raw|]; [|done].
    by destruct (arrayGet (present raw) index).
  - unfold finalizeReport. by destruct (rawResults st) eqn:Hraw.
  - unfold finalizeReport. by destruct (rawResults st).
  - unfold handleBulkStatusChange.
    destruct (finalResults st); [|done]. by destruct (pendingStatus st).
Qed.

(** *** Selection *)

(** X12. A toggle flips whether its name is selected and leaves the other names
    alone; two toggles of the same name restore the selection. *)
Theorem toggleSelection_flips (n : jsstring) (st : AppState) :
  (n ∈ selectedNames (toggleSelection n st).2 ↔ n ∉ selectedNames st) ∧
  (∀ m : jsstring, m ≠ n →
     (m ∈ selectedNames (toggleSelection n st).2 ↔ m ∈ selectedNames st)) ∧
  selectedNames (toggleSelection n (toggleSelection n st).2).2 = selectedNames st.
Proof.
  assert (Hone : ∀ (sel : gset jsstring) (m : jsstring),
    m ∈ (if bool_decide (n ∈ sel) then sel ∖ {[n]} else sel ∪ {[n]}) ↔
    (m = n ∧ n ∉ sel) ∨ (m ≠ n ∧ m ∈ sel)).
  { intros sel m. case_bool_decide as Hn.
    - rewrite elem_of_difference, elem_of_singleton.
      destruct (decide (m = n)) as [-> | Hne]; tauto.
    - rewrite elem_of_union, elem_of_singleton.
      destruct (decide (m = n)) as [-> | Hne]; tauto. }
  split; [|split].
  - simpl. rewrite Hone. tauto.
  - intros m Hm. simpl. rewrite Hone. tauto.
  - simpl. apply set_eq. intros m. rewrite !Hone.
    destruct (decide (n ∈ selectedNames st)), (decide (m = n)) as [-> | Hne]; tauto.
Qed.

(** *** The rendered view *)

(** X13. After any sequence of operations one of the three views is rendered:
    the chain of conditionals never falls through to its final [null]. *)
Theorem view_never_blank
    (toLowerCase : jsstring → jsstring) (searchTerm : jsstring) (es : list Event) :
  view toLowerCase searchTerm (run localeCompare es initialState) ≠ NoView.
Proof.
  set (inv := λ st : AppState,
    finalResults st = None → rawResults st ≠ None → isReviewing st = true).
  assert (Hstep : ∀ e st, inv st → inv (handle localeCompare e st).2).
  { intros e st Hinv. unfold inv in *.
    destruct e as [res|index| |n|s| | |c|]; simpl; try done.
    - unfold rejectMatch. destruct (rawResults st) as [raw|] eqn:Hraw;
        [destruct (arrayGet (present raw) index)|]; simpl; intros Hf Hr;
        apply Hinv; congruence.
    - unfold finalizeReport. destruct (rawResults st) as [raw|] eqn:Hraw;
        simpl; intros Hf Hr; [done | apply Hinv; congruence].
    - unfold handleBulkStatusChange. destruct (finalResults st) as [fin|] eqn:Hfin;
        [destruct (pendingStatus st)|]; simpl; intros Hf Hr;
        try done; apply Hinv; congruence.
    - destruct c; simpl; done. }
  assert (Hrun : ∀ st, inv st → inv (run localeCompare es st)).
  { induction es as [|e es IH]; intros st Hst; simpl; [done|]. apply IH, Hstep, Hst. }
  assert (Hinv : inv (run localeCompare es initialState))
    by (apply Hrun; unfold inv; simpl; congruence).
  unfold view, filteredDisplay, inv in *.
  destruct (rawResults (run localeCompare es initialState)) as [raw|],
           (finalResults (run localeCompare es initialState)) as [fin|]; try done.
  - by destruct (isReviewing _).
  - rewrite Hinv by done. done.
  - by destruct (isReviewing _).
Qed.

End EngineExtras.

(** ** The report: search view and export rows *)

Section ReportFacts.

Lemma includes_nil (s : jsstring) : includes s [] = true.
Proof. destruct s; simpl; by rewrite ?startsWith_nil. Qed.

Variable toLowerCase : jsstring → jsstring.

Lemma filterFn_empty_term (a : Attendee) : filterFn toLowerCase [] a = true.
Proof. unfold filterFn. by rewrite includes_nil. Qed.

Lemma filteredDisplay_lower_empty (searchTerm : jsstring) (st : AppState) :
  toLowerCase searchTerm = [] →
  filteredDisplay toLowerCase searchTerm st = finalResults st.
Proof.
  intros Hlow. unfold filteredDisplay. rewrite Hlow.
  destruct (finalResults st) as [[p a u]|]; [|done]. simpl.
  by rewrite !(filter_all (λ a0, filterFn toLowerCase [] a0 = true))
    by (intros; apply filterFn_empty_term).
Qed.

(** X14. The search view never adds or reorders: each shown bucket is a
    sub-list of the finalized bucket, and with a search term whose lower
    case is the empty string it is the finalized classification itself. *)
Theorem filteredDisplay_is_a_view
    (searchTerm : jsstring) (st : AppState) (fin : ProcessingResult) :
  finalResults st = Some fin →
  ∃ shown : ProcessingResult,
    filteredDisplay toLowerCase searchTerm st = Some shown ∧
    (∀ s : AttendanceStatus, bucket s shown `sublist_of` bucket s fin) ∧
    (toLowerCase searchTerm = [] → shown = fin).
Proof.
  intros Hfin.
  assert (∃ shown, filteredDisplay toLowerCase searchTerm st = Some shown ∧
            ∀ s, bucket s shown `sublist_of` bucket s fin) as (shown & Hshown & Hsub).
  { unfold filteredDisplay. rewrite Hfin. eexists. split; [done|].
    intros s. destruct s; simpl; apply sublist_filter. }
  exists shown. split; [done|]. split; [done|].
  intros Hlow. rewrite (filteredDisplay_lower_empty searchTerm st Hlow), Hfin in Hshown.
  by injection Hshown.
Qed.

(** X15. The exported sheet is the header row and one row of three cells per
    attendee, in the order present, absent, unexpected; a row starts with
    the attendee's name, carries the label [getStatusLabel] gives for the
    bucket, and ends with the originalName only in the present bucket;
    the labels of different statuses differ. *)
Theorem exportData_rows (st : AppState) (fin : ProcessingResult) :
  finalResults st = Some fin →
  ∃ rows : list (list jsstring),
    exportData st = Some (headerRow :: rows) ∧
    length rows = length (allOf fin) ∧
    (∀ row, row ∈ headerRow :: rows → length row = 3%nat) ∧
    (λ row, default [] (head row)) <$> rows = names (allOf fin) ∧
    (∀ (s : AttendanceStatus) (a : Attendee), a ∈ bucket s fin →
       [name a; getStatusLabel (Some s);
        if decide (s = PRESENT) then orElse (originalName a) [] else []] ∈ rows) ∧
    (∀ s s' : option AttendanceStatus, getStatusLabel s = getStatusLabel s' → s = s').
Proof.
  intros Hfin. unfold exportData. rewrite Hfin. eexists. split; [done|].
  split; [|split; [|split; [|split]]].
  - unfold allOf. by rewrite !length_app, !length_fmap.
  - intros row [-> | Hrow]%elem_of_cons; [done|].
    rewrite !elem_of_app, !list_elem_of_fmap in Hrow.
    by destruct Hrow as [(x & -> & _) | [(x & -> & _) | (x & -> & _)]].
  - unfold names, allOf. rewrite !fmap_app, <- !list_fmap_compose. done.
  - intros s a Ha. rewrite !elem_of_app, !list_elem_of_fmap.
    destruct s; simpl in *; [left | right; left | right; right]; by exists a.
  - intros [[]|] [[]|]; simpl; intros Heq; try done; discriminate Heq.
Qed.

End ReportFacts.

(** ** The page and its sessions *)

Section WorkflowFacts.

Variable localeCompare : jsstring → jsstring → Z.
Variable toLowerCase : jsstring → jsstring.
Variable env : Env.

#[local] Abbreviation runAnalysis := (Workflow.runAnalysis localeCompare).
#[local] Abbreviation settleAnalysis := (Workflow.settleAnalysis localeCompare).
#[local] Abbreviation click := (Workflow.click localeCompare).
#[local] Abbreviation offered := (Workflow.offered toLowerCase).
#[local] Abbreviation act := (Workflow.act localeCompare toLowerCase).
#[local] Abbreviation sessionLive := (Workflow.sessionLive localeCompare toLowerCase).
#[local] Abbreviation session := (Workflow.session localeCompare toLowerCase).

(** X16. An analysis run is all or nothing. It never touches the inputs.
    Run without interruption, either it leaves the session and the
    finalized classification as they were and ends with an error message on
    the page; or the inputs passed the check, every step resolved, and the
    session is the answer with each bucket sorted, review mode is on, the
    finalized classification and the selection are as before, there is no
    error and the loading flag is off; or the inputs passed the check, a
    step never settles, and the page stays as the click left it, loading
    and with no error. The same holds of the rest of a run that ends on a
    page other handlers have changed since the click: with an answer it
    sets the session, review mode and the loading flag and nothing else,
    with a failure the error and the loading flag and nothing else. *)
Theorem runAnalysis_all_or_nothing (pg : Page) :
  (sourceMode (runAnalysis env pg) = sourceMode pg ∧
   excelFile (runAnalysis env pg) = excelFile pg ∧
   officialImage (runAnalysis env pg) = officialImage pg ∧
   screenshots (runAnalysis env pg) = screenshots pg ∧
   sensitivity (runAnalysis env pg) = sensitivity pg ∧
   searchTerm (runAnalysis env pg) = searchTerm pg) ∧
  ((core (runAnalysis env pg) = core pg ∧ is_Some (error (runAnalysis env pg))) ∨
   (∃ res : ProcessingResult,
      analysis env pg = Resolved res ∧
      hasSource pg = true ∧ screenshots pg ≠ [] ∧
      rawResults (core (runAnalysis env pg)) =
        Some {| present := arraySort (byName localeCompare) (present res);
                absent := arraySort (byName localeCompare) (absent res);
                unexpected := arraySort (byName localeCompare) (unexpected res) |} ∧
      isReviewing (core (runAnalysis env pg)) = true ∧
      finalResults (core (runAnalysis env pg)) = finalResults (core pg) ∧
      selectedNames (core (runAnalysis env pg)) = selectedNames (core pg) ∧
      showBulkConfirm (core (runAnalysis env pg)) = showBulkConfirm (core pg) ∧
      pendingStatus (core (runAnalysis env pg)) = pendingStatus (core pg) ∧
      error (runAnalysis env pg) = None ∧
      loading (runAnalysis env pg) = false) ∨
   (analysis env pg = Pending ∧
    hasSource pg = true ∧ screenshots pg ≠ [] ∧
    core (runAnalysis env pg) = core pg ∧
    error (runAnalysis env pg) = None ∧
    loading (runAnalysis env pg) = true)) ∧
  (∀ (res : ProcessingResult) (later : Page),
     rawResults (core (settleAnalysis (Resolved res) later)) =
       Some {| present := arraySort (byName localeCompare) (present res);
               absent := arraySort (byName localeCompare) (absent res);
               unexpected := arraySort (byName localeCompare) (unexpected res) |} ∧
     isReviewing (core (settleAnalysis (Resolved res) later)) = true ∧
     loading (settleAnalysis (Resolved res) later) = false ∧
     finalResults (core (settleAnalysis (Resolved res) later)) = finalResults (core later) ∧
     selectedNames (core (settleAnalysis (Resolved res) later)) = selectedNames (core later) ∧
     showBulkConfirm (core (settleAnalysis (Resolved res) later)) =
       showBulkConfirm (core later) ∧
     pendingStatus (core (settleAnalysis (Resolved res) later)) = pendingStatus (core later) ∧
     error (settleAnalysis (Resolved res) later) = error later ∧
     sourceMode (settleAnalysis (Resolved res) later) = sourceMode later ∧
     excelFile (settleAnalysis (Resolved res) later) = excelFile later ∧
     officialImage (settleAnalysis (Resolved res) later) = officialImage later ∧
     excelNamesCount (settleAnalysis (Resolved res) later) = excelNamesCount later ∧
     screenshots (settleAnalysis (Resolved res) later) = screenshots later ∧
     sensitivity (settleAnalysis (Resolved res) later) = sensitivity later ∧
     searchTerm (settleAnalysis (Resolved res) later) = searchTerm later) ∧
  (∀ (m : option jsstring) (later : Page),
     error (settleAnalysis (Rejected m) later) = Some (orElse m msgUnexpected) ∧
     loading (settleAnalysis (Rejected m) later) = false ∧
     core (settleAnalysis (Rejected m) later) = core later ∧
     sourceMode (settleAnalysis (Rejected m) later) = sourceMode later ∧
     excelFile (settleAnalysis (Rejected m) later) = excelFile later ∧
     officialImage (settleAnalysis (Rejected m) later) = officialImage later ∧
     excelNamesCount (settleAnalysis (Rejected m) later) = excelNamesCount later ∧
     screenshots (settleAnalysis (Rejected m) later) = screenshots later ∧
     sensitivity (settleAnalysis (Rejected m) later) = sensitivity later ∧
     searchTerm (settleAnalysis (Rejected m) later) = searchTerm later).
Proof.
  split; [|split; [|split]].
  - unfold Workflow.runAnalysis, startAnalysis.
    destruct (inputsMissing pg); [done|]. by destruct (analysis env pg).
  - unfold Workflow.runAnalysis, startAnalysis, inputsMissing.
    destruct (hasSource pg) eqn:Hsrc; simpl; [|left; by eauto].
    destruct (screenshots pg) as [|f fs] eqn:Hshots; simpl; [left; by eauto|].
    destruct (analysis env pg) as [res | m |] eqn:Han; simpl.
    + right. left. by exists res.
    + left. by eauto.
    + by right; right.
  - intros res later. by split_and!.
  - intros m later. by split_and!.
Qed.

(** X17. A run that finds no official name stops there: the page shows the
    no-names message and the session is untouched, whatever the matching
    oracle would have answered. *)
Theorem runAnalysis_without_names (pg : Page) :
  hasSource pg = true →
  screenshots pg ≠ [] →
  officialNamesOf env pg = Resolved [] →
  error (runAnalysis env pg) = Some msgNoNames ∧
  core (runAnalysis env pg) = core pg ∧
  loading (runAnalysis env pg) = false.
Proof.
  intros Hsrc Hshots Hnames.
  unfold Workflow.runAnalysis, startAnalysis, inputsMissing, analysis.
  rewrite Hsrc, Hnames. by destruct (screenshots pg).
Qed.

(** X18. A run is refused when there is no screenshot or no official source
    for the mode that is selected; a source uploaded for the other mode
    does not count. The page then shows the missing-inputs message, the
    session, the loading flag and the inputs are as before, and in a
    session the click on the start button puts no run in flight. *)
Theorem runAnalysis_missing_inputs (pg : Page) :
  (sourceMode pg = excel ∧ excelFile pg = None) ∨
  (sourceMode pg = image ∧ officialImage pg = None) ∨
  screenshots pg = [] →
  error (runAnalysis env pg) = Some msgMissingInputs ∧
  core (runAnalysis env pg) = core pg ∧
  loading (runAnalysis env pg) = loading pg ∧
  sourceMode (runAnalysis env pg) = sourceMode pg ∧
  excelFile (runAnalysis env pg) = excelFile pg ∧
  officialImage (runAnalysis env pg) = officialImage pg ∧
  excelNamesCount (runAnalysis env pg) = excelNamesCount pg ∧
  screenshots (runAnalysis env pg) = screenshots pg ∧
  sensitivity (runAnalysis env pg) = sensitivity pg ∧
  searchTerm (runAnalysis env pg) = searchTerm pg ∧
  (click StartAnalysis pg).2 = runAnalysis env pg ∧
  ∀ jobs : list Awaited,
    inFlight (act env {| page := pg; inFlight := jobs |} (User StartAnalysis)) = jobs.
Proof.
  intros H.
  assert (Hmiss : inputsMissing pg = true).
  { unfold inputsMissing, hasSource.
    destruct H as [[-> ->] | [[-> ->] | ->]]; simpl; [done | done |].
    by rewrite orb_true_r. }
  unfold Workflow.runAnalysis, startAnalysis. simpl. unfold startAnalysis.
  rewrite Hmiss. split_and!; try done.
  intros jobs. unfold Workflow.act. simpl.
  destruct (_ && _); [|done]. simpl. by rewrite app_nil_r.
Qed.

(** *** What the rendered page offers *)

Lemma view_Upload (term : jsstring) (st : AppState) :
  view toLowerCase term st = UploadView ↔
  rawResults st = None ∧ finalResults st = None.
Proof.
  unfold view, filteredDisplay.
  destruct (rawResults st), (finalResults st), (isReviewing st); simpl;
    split; try done; by intros [? ?].
Qed.

Lemma view_Review (term : jsstring) (st : AppState) :
  view toLowerCase term st = ReviewView →
  isReviewing st = true ∧ is_Some (rawResults st).
Proof.
  unfold view, filteredDisplay.
  destruct (rawResults st), (finalResults st), (isReviewing st); simpl;
    try done; by eauto.
Qed.

Lemma view_Report (term : jsstring) (st : AppState) :
  view toLowerCase term st = ReportView → is_Some (finalResults st).
Proof.
  unfold view, filteredDisplay.
  destruct (rawResults st), (finalResults st), (isReviewing st); simpl;
    try done; by eauto.
Qed.

(** X19. No control of the rendered page makes its handler throw: the review
    table has a reject button only for the rows of the present bucket. *)
Theorem offered_click_returns (c : Click) (pg : Page) :
  offered c pg = true → (click c pg).1 = Returned.
Proof.
  destruct c as [m|files|files| |index| |n|s| | | |confirmed]; simpl; try done.
  - rewrite andb_true_iff. intros [_ Hidx].
    destruct (rawResults (core pg)) as [raw|] eqn:Hraw; [|done].
    apply bool_decide_eq_true in Hidx.
    destruct (lookup_lt_is_Some_2 (present raw) index Hidx) as [m Hm].
    assert (Hget : arrayGet (present raw) (Z.of_nat index) = Some m).
    { apply arrayGet_Some. split; [lia|]. by rewrite Nat2Z.id. }
    by rewrite (rejectMatch_unfold localeCompare (core pg) raw _ m Hraw Hget).
  - intros _. unfold finalizeReport. by destruct (rawResults (core pg)).
  - intros _. unfold handleBulkStatusChange.
    destruct (finalResults (core pg)); [|done]. by destruct (pendingStatus (core pg)).
Qed.

(** *** Sessions *)

Lemma displayedNames_final (pg : Page) (n : jsstring) :
  n ∈ displayedNames toLowerCase pg →
  ∃ fin, finalResults (core pg) = Some fin ∧ n ∈ names (allOf fin).
Proof.
  unfold displayedNames, filteredDisplay.
  destruct (finalResults (core pg)) as [fin|]; [|by intros ?%elem_of_nil].
  intros Hn. exists fin. split; [done|]. revert Hn.
  unfold names, allOf. simpl. rewrite !fmap_app, !elem_of_app, !list_elem_of_fmap.
  intros [(a & -> & Ha) | [(a & -> & Ha) | (a & -> & Ha)]];
    apply list_elem_of_filter in Ha as [_ Ha]; [left | right; left | right; right];
    by exists a.
Qed.

Ltac inv_auto :=
  try done; try (by left); try (by right); try (by intros [? ?]);
  try (by intros n ?%not_elem_of_empty).

Lemma initialPage_pageInv : pageInv initialPage.
Proof. unfold pageInv, inputsInv, coreInv. split_and!; simpl; inv_auto. Qed.

Lemma ingest_coreInv (res : ProcessingResult) (st : AppState) :
  rawResults st = None → finalResults st = None → coreInv st →
  coreInv (ingest localeCompare res st).2.
Proof.
  intros Hraw Hfin (H1 & H2 & H3 & H4 & H5).
  unfold coreInv. simpl. rewrite Hfin. split_and!; inv_auto.
  - intros Hshow. destruct (H4 Hshow) as [[fin Hf] _]. congruence.
  - intros n Hn. destruct (H5 n Hn) as (fin & Hf & _). congruence.
Qed.

Lemma rejectMatch_coreInv (index : Z) (st : AppState) :
  isReviewing st = true → coreInv st → coreInv (rejectMatch localeCompare index st).2.
Proof.
  intros Hrev Hinv. pose proof Hinv as (H1 & H2 & H3 & H4 & H5).
  destruct (rawResults st) as [raw|] eqn:Hraw;
    [destruct (arrayGet (present raw) index) as [m|] eqn:Hget|].
  - rewrite (rejectMatch_unfold localeCompare st raw index m Hraw Hget).
    unfold coreInv. simpl. split_and!; inv_auto.
    intros Hf. destruct (H2 Hf) as [Hno _]. congruence.
  - unfold rejectMatch. by rewrite Hraw, Hget.
  - unfold rejectMatch. by rewrite Hraw.
Qed.

Lemma finalizeReport_coreInv (st : AppState) :
  isReviewing st = true → coreInv st → coreInv (finalizeReport st).2.
Proof.
  intros Hrev Hinv. pose proof Hinv as (H1 & H2 & H3 & H4 & H5).
  unfold finalizeReport. destruct (rawResults st) as [raw|] eqn:Hraw; [|done].
  assert (Hfin : finalResults st = None).
  { destruct (finalResults st) eqn:Hf; [|done].
    destruct (H2 (mk_is_Some _ _ eq_refl)) as [Hno _]. congruence. }
  unfold coreInv. simpl. rewrite Hraw. split_and!; inv_auto.
  - intros Hshow. destruct (H4 Hshow) as [[fin Hf] _]. congruence.
  - intros n Hn. destruct (H5 n Hn) as (fin & Hf & _). congruence.
Qed.

Lemma handleBulkStatusChange_coreInv (st : AppState) :
  coreInv st → coreInv (handleBulkStatusChange localeCompare st).2.
Proof.
  intros Hinv. pose proof Hinv as (H1 & H2 & H3 & H4 & H5).
  destruct (finalResults st) as [fin|] eqn:Hfin;
    [destruct (pendingStatus st) as [target|] eqn:Hpend|].
  - rewrite (handleBulkStatusChange_unfold localeCompare st fin target Hfin Hpend).
    unfold coreInv. simpl. split_and!; inv_auto.
    intros _. by apply H2.
  - unfold handleBulkStatusChange. by rewrite Hfin, Hpend.
  - unfold handleBulkStatusChange. by rewrite Hfin.
Qed.

(** The part of a handler that runs at the click keeps the invariant of
    the page. *)
Lemma click_pageInv (c : Click) (pg : Page) :
  offered c pg = true → pageInv pg → pageInv (click c pg).2.
Proof.
  intros Hoff Hinv.
  pose proof Hinv as [Hin Hcore].
  pose proof Hin as (Hfiles & Hterm & Hsens).
  pose proof Hcore as (H1 & H2 & H3 & H4 & H5).
  destruct c as [m|files|files| |index| |n|s| | | |confirmed]; simpl in Hoff |- *.
  - exact Hinv.
  - split; [|by destruct (sourceMode pg), files as [|file files']].
    unfold startExcelUpload, handleOfficialImageUpload, inputsInv.
    destruct (sourceMode pg), files as [|file files']; try done;
      simpl; split_and!; inv_auto.
  - exact Hinv.
  - unfold startAnalysis. by destruct (inputsMissing pg).
  - apply andb_true_iff in Hoff as [Hview%bool_decide_eq_true _].
    apply view_Review in Hview as [Hrev _].
    split; [exact Hin|]. by apply rejectMatch_coreInv.
  - apply bool_decide_eq_true, view_Review in Hoff as [Hrev _].
    split; [exact Hin|]. by apply finalizeReport_coreInv.
  - apply andb_true_iff in Hoff as [_ Hn%bool_decide_eq_true].
    split; [exact Hin|]. unfold coreInv. simpl. split_and!; inv_auto.
    intros n' Hn'. case_bool_decide.
    + apply H5. by apply elem_of_difference in Hn' as [? _].
    + apply elem_of_union in Hn' as [Hn' | ->%elem_of_singleton]; [by apply H5|].
      by apply displayedNames_final.
  - apply andb_true_iff in Hoff as [Hoff Hs].
    apply andb_true_iff in Hoff as [Hview%bool_decide_eq_true _].
    apply view_Report in Hview.
    split; [exact Hin|]. unfold coreInv. simpl. split_and!; inv_auto.
    intros [= ->]. discriminate Hs.
  - split; [exact Hin|]. unfold coreInv. simpl. split_and!; inv_auto.
  - split; [exact Hin|]. unfold coreInv. simpl. split_and!; inv_auto.
  - split; [exact Hin|]. by apply handleBulkStatusChange_coreInv.
  - destruct confirmed; [|exact Hinv]. simpl.
    unfold pageInv, inputsInv, coreInv. simpl. split_and!; inv_auto.
Qed.

(** *** Handlers in flight *)

Lemma analyses_app (l1 l2 : list Awaited) :
  analyses (l1 ++ l2) = (analyses l1 + analyses l2)%nat.
Proof. induction l1 as [|[o|o] l1 IH]; simpl; [done | done | by rewrite IH]. Qed.

Lemma analyses_delete_Analysing (l : list Awaited) (i : nat)
    (o : Settled ProcessingResult) :
  l !! i = Some (Analysing o) → S (analyses (delete i l)) = analyses l.
Proof.
  revert i. induction l as [|[o'|o'] l IH]; intros [|i] Hi; simpl in *; try done.
  - by apply IH.
  - by rewrite (IH i Hi).
Qed.

Lemma analyses_delete_Reading (l : list Awaited) (i : nat)
    (o : Settled (list jsstring)) :
  l !! i = Some (Reading o) → analyses (delete i l) = analyses l.
Proof.
  revert i. induction l as [|[o'|o'] l IH]; intros [|i] Hi; simpl in *; try done.
  - by apply IH.
  - by rewrite (IH i Hi).
Qed.

Lemma analyses_unique (l : list Awaited) (i j : nat)
    (o o' : Settled ProcessingResult) :
  (analyses l <= 1)%nat →
  l !! i = Some (Analysing o) → l !! j = Some (Analysing o') → i = j.
Proof.
  revert i j. induction l as [|[r|r] l IH]; intros [|i] [|j] Hone Hi Hj;
    simpl in *; try done.
  - f_equal. by apply IH.
  - pose proof (analyses_delete_Analysing l j o' Hj). lia.
  - pose proof (analyses_delete_Analysing l i o Hi). lia.
  - pose proof (analyses_delete_Analysing l i o Hi). lia.
Qed.

(** Only the start button puts a run in flight, one at a time, and it
    leaves the page loading in the upload view. *)
Lemma awaits_analyses (c : Click) (pg : Page) :
  offered c pg = true →
  (analyses (awaits env c pg) <= 1)%nat ∧
  (analyses (awaits env c pg) ≠ 0%nat →
     loading pg = false ∧
     loading (click c pg).2 = true ∧
     rawResults (core (click c pg).2) = None ∧
     finalResults (core (click c pg).2) = None).
Proof.
  intros Hoff. unfold awaits.
  destruct c as [m|files|files| |index| |n|s| | | |confirmed];
    try (simpl; split; [lia | done]).
  - destruct files as [|file files'], (sourceMode pg); simpl; split; (lia || done).
  - simpl in Hoff. apply andb_true_iff in Hoff as [Hview%bool_decide_eq_true Hload].
    apply view_Upload in Hview as [Hraw Hfin].
    apply negb_true_iff in Hload.
    simpl. unfold startAnalysis.
    destruct (inputsMissing pg); simpl; split; (lia || done).
Qed.

(** While a run is in flight the page offers only controls that leave the
    session, the loading flag and the runs in flight alone. *)
Lemma click_while_analysing (c : Click) (pg : Page) :
  coreInv (core pg) →
  loading pg = true →
  rawResults (core pg) = None → finalResults (core pg) = None →
  offered c pg = true →
  core (click c pg).2 = core pg ∧
  loading (click c pg).2 = true ∧
  analyses (awaits env c pg) = 0%nat.
Proof.
  intros (H1 & H2 & H3 & H4 & H5) Hload Hraw Hfin Hoff.
  assert (Hview : view toLowerCase (searchTerm pg) (core pg) = UploadView)
    by by apply view_Upload.
  assert (Hshow : showBulkConfirm (core pg) = false).
  { destruct (showBulkConfirm (core pg)); [|done].
    destruct (H4 eq_refl) as [[fin Hf] _]. congruence. }
  unfold awaits.
  destruct c as [m|files|files| |index| |n|s| | | |confirmed]; simpl in Hoff |- *;
    rewrite ?Hview, ?Hload, ?Hshow in Hoff; simpl in Hoff;
    try discriminate Hoff.
  - done.
  - by destruct files as [|file files'], (sourceMode pg).
  - done.
Qed.

Lemma initialLive_liveInv : liveInv initialLive.
Proof. split; [apply initialPage_pageInv|]. simpl. split; [lia | done]. Qed.

Lemma act_liveInv (lv : Live) (mv : Move) : liveInv lv → liveInv (act env lv mv).
Proof.
  intros Hinv. pose proof Hinv as (Hpage & Hone & Hrun).
  destruct mv as [c | i]; simpl.
  - destruct (Workflow.offered toLowerCase c (page lv)) eqn:Hoff; [|done].
    split; [by apply click_pageInv|]. simpl. rewrite analyses_app.
    destruct (awaits_analyses c (page lv) Hoff) as [Hnew Hstart].
    destruct (decide (analyses (inFlight lv) = 0%nat)) as [Hz | Hnz].
    + rewrite Hz. simpl. split; [done|]. intros Hn. by apply Hstart.
    + destruct (Hrun Hnz) as (Hload & Hraw & Hfin).
      destruct (click_while_analysing c (page lv) (proj2 Hpage) Hload Hraw Hfin Hoff)
        as (Hcore & Hload' & ->).
      rewrite Nat.add_0_r, Hcore. by split_and!.
  - destruct (inFlight lv !! i) as [job|] eqn:Hjob; [|done].
    destruct (settles job) eqn:Hsettles; [|done].
    destruct job as [outcome | outcome]; simpl.
    + unfold liveInv. simpl.
      rewrite (analyses_delete_Reading _ _ _ Hjob).
      by destruct outcome.
    + pose proof (analyses_delete_Analysing _ _ _ Hjob) as Hdel.
      destruct Hrun as (Hload & Hraw & Hfin); [lia|].
      unfold liveInv. simpl.
      replace (analyses (delete i (inFlight lv))) with 0%nat by lia.
      destruct outcome as [res | m |]; [| |done].
      * split_and!; [|lia|done].
        split; [apply Hpage|]. apply ingest_coreInv; [done | done | apply Hpage].
      * by split_and!; [|lia|].
Qed.

Lemma sessionLive_liveInv (ms : list Move) : liveInv (sessionLive env ms).
Proof.
  unfold Workflow.sessionLive.
  assert (H : ∀ lv, liveInv lv → liveInv (fold_left (act env) ms lv)).
  { induction ms as [|mv ms IH]; intros lv Hlv; simpl; [done|].
    by apply IH, act_liveInv. }
  apply H, initialLive_liveInv.
Qed.

Lemma session_pageInv (ms : list Move) : pageInv (session env ms).
Proof. apply sessionLive_liveInv. Qed.

(** X20. In every session at the page: at most one of the two official sources
    is held at a time, the search term stays empty and the matching
    sensitivity stays [BALANCED], since no control sets them. *)
Theorem session_inputs (ms : list Move) :
  (excelFile (session env ms) = None ∨ officialImage (session env ms) = None) ∧
  searchTerm (session env ms) = [] ∧
  sensitivity (session env ms) = BALANCED.
Proof. by destruct (session_pageInv ms) as [? _]. Qed.

(** X21. In every session at the page, whatever the user clicks and whenever
    the awaited steps end: one of the three views is rendered; once a
    classification is finalized review mode is off, so no reject button is
    offered any more; a staged bulk change never targets the Unexpected
    bucket; while the confirmation dialog is open there are a finalized
    classification and a staged status; every selected name is the name of
    an attendee of the finalized classification; and at most one analysis
    run is in flight at a time, during which the page shows the upload
    view with the loading flag on and the start button disabled. *)
Theorem session_workflow (ms : list Move) :
  view toLowerCase (searchTerm (session env ms)) (core (session env ms)) ≠ NoView ∧
  (is_Some (finalResults (core (session env ms))) →
     isReviewing (core (session env ms)) = false ∧
     ∀ index : nat, offered (Reject index) (session env ms) = false) ∧
  pendingStatus (core (session env ms)) ≠ Some UNEXPECTED ∧
  (showBulkConfirm (core (session env ms)) = true →
     is_Some (finalResults (core (session env ms))) ∧
     is_Some (pendingStatus (core (session env ms)))) ∧
  (∀ n : jsstring, n ∈ selectedNames (core (session env ms)) →
     ∃ fin, finalResults (core (session env ms)) = Some fin ∧ n ∈ names (allOf fin)) ∧
  (∀ (i j : nat) (o o' : Settled ProcessingResult),
     inFlight (sessionLive env ms) !! i = Some (Analysing o) →
     inFlight (sessionLive env ms) !! j = Some (Analysing o') →
     i = j) ∧
  (∀ (i : nat) (o : Settled ProcessingResult),
     inFlight (sessionLive env ms) !! i = Some (Analysing o) →
     loading (session env ms) = true ∧
     view toLowerCase (searchTerm (session env ms)) (core (session env ms)) = UploadView ∧
     offered StartAnalysis (session env ms) = false).
Proof.
  destruct (sessionLive_liveInv ms) as ([_ (H1 & H2 & H3 & H4 & H5)] & Hone & Hrun).
  unfold Workflow.session.
  set (lv := sessionLive env ms) in *.
  split_and!; try done.
  - unfold view, filteredDisplay.
    destruct (rawResults (core (page lv))) as [raw|] eqn:Hraw,
             (finalResults (core (page lv))) as [fin|] eqn:Hfin; try done.
    + by destruct (isReviewing (core (page lv))).
    + rewrite H1 by done. done.
    + by destruct (isReviewing (core (page lv))).
  - intros Hfin. destruct (H2 Hfin) as [Hrev _]. split; [done|].
    intros index. simpl. apply andb_false_iff. left. apply bool_decide_eq_false.
    intros [Hrev' _]%view_Review. congruence.
  - intros i j o o'. by apply analyses_unique.
  - intros i o Hi.
    pose proof (analyses_delete_Analysing _ _ _ Hi) as Hdel.
    destruct Hrun as (Hload & Hraw & Hfin); [lia|].
    split_and!; [done | by apply view_Upload |].
    simpl. rewrite Hload. apply andb_false_r.
Qed.

(** X22. With a lower-casing that maps the empty string to itself, the report
    of a session always lists the whole finalized classification: the
    search filter hides nothing, as no control sets a search term. *)
Theorem session_shows_whole_report (ms : list Move) :
  toLowerCase [] = [] →
  filteredDisplay toLowerCase (searchTerm (session env ms)) (core (session env ms)) =
  finalResults (core (session env ms)).
Proof.
  intros Hlow. destruct (session_pageInv ms) as [(_ & Hterm & _) _]. rewrite Hterm.
  by apply filteredDisplay_lower_empty.
Qed.

End WorkflowFacts.

(** ** More concrete runs *)

Section MoreConcreteRuns.

Lemma finalABCD_statusConsistent : statusConsistent finalABCD.
Proof.
  intros s a. destruct s; simpl; intros H;
    repeat (apply elem_of_cons in H as [-> | H]; [done|]); by apply elem_of_nil in H.
Qed.

Lemma finalABCD_bucketsSorted : bucketsSorted codeUnitCompare finalABCD.
Proof.
  split_and!; simpl; repeat constructor.
  unfold Engine.nameLe, byName. simpl. lia.
Qed.

Lemma extractNamesFromExcel_deduplicates_witness :
  NoDup (extractNamesFromExcel (sheetTwoNames ++ sheetRepeat)) ∧
  (∀ n : jsstring, n ∈ extractNamesFromExcel (sheetTwoNames ++ sheetRepeat) → trim n = n) ∧
  extractNamesFromExcel (sheetTwoNames ++ sheetRepeat) = extractNamesFromExcel sheetTwoNames.
Proof.
  apply (extractNamesFromExcel_deduplicates sheetTwoNames sheetRepeat).
  intros n Hn. vm_compute in Hn. apply list_elem_of_singleton in Hn. subst n.
  vm_compute. left.
Defined.

Lemma imageData_of_data_url_witness :
  imageData (urlHeader ++ 44 :: urlPayload) = Some urlPayload ∧
  imageData urlPayload = Some urlPayload.
Proof.
  apply (imageData_of_data_url urlHeader urlPayload);
    apply (bool_decide_unpack _); vm_compute; exact I.
Defined.

Lemma status_fields_match_buckets_witness :
  stateConsistent
    (run codeUnitCompare
       [EIngest (toProcessingResult response); ERejectMatch 0; EFinalize; EConfirmBulk]
       initialState).
Proof.
  apply (status_fields_match_buckets codeUnitCompare).
  repeat constructor; intros res Hres; try discriminate Hres.
  injection Hres as <-. by exists response.
Defined.

Lemma bulk_change_keeps_unselected_in_place_witness :
  ∃ next : ProcessingResult,
    finalResults (handleBulkStatusChange codeUnitCompare staged).2 = Some next ∧
    (∀ s : AttendanceStatus, s ≠ ABSENT →
       bucket s next = filter (λ a, name a ∉ selectedNames staged) (bucket s finalABCD)) ∧
    bucket ABSENT next ≡ₚ
      filter (λ a, name a ∉ selectedNames staged) (bucket ABSENT finalABCD) ++
      (withStatus ABSENT <$> filter (λ a, name a ∈ selectedNames staged) (allOf finalABCD)).
Proof.
  apply (bulk_change_keeps_unselected_in_place codeUnitCompare codeUnitCompare_trans
           staged finalABCD ABSENT eq_refl eq_refl
           finalABCD_statusConsistent finalABCD_bucketsSorted).
Defined.

Lemma bulk_change_empty_selection_witness :
  finalResults (handleBulkStatusChange codeUnitCompare stagedNothing).2 = Some finalABCD.
Proof.
  apply (bulk_change_empty_selection codeUnitCompare stagedNothing finalABCD ABSENT
           eq_refl eq_refl eq_refl finalABCD_statusConsistent finalABCD_bucketsSorted).
Defined.

Lemma rejectMatch_counts_witness :
  ∃ raw' : ProcessingResult,
    rawResults (rejectMatch codeUnitCompare 0 (reviewing rawBare)).2 = Some raw' ∧
    S (length (present raw')) = length (present rawBare) ∧
    length (absent raw') = S (length (absent rawBare)) ∧
    length (unexpected raw') = S (length (unexpected rawBare)) ∧
    rosterCount raw' = rosterCount rawBare ∧
    length (allOf raw') = S (length (allOf rawBare)).
Proof.
  apply (rejectMatch_counts codeUnitCompare (reviewing rawBare) rawBare 0);
    [reflexivity | simpl; lia].
Defined.

Lemma filteredDisplay_is_a_view_witness :
  ∃ shown : ProcessingResult,
    filteredDisplay asciiLower (js "ZOOM") staged = Some shown ∧
    (∀ s : AttendanceStatus, bucket s shown `sublist_of` bucket s finalABCD) ∧
    (asciiLower (js "ZOOM") = [] → shown = finalABCD).
Proof. apply (filteredDisplay_is_a_view asciiLower (js "ZOOM") staged finalABCD eq_refl). Defined.

Lemma exportData_rows_witness :
  ∃ rows : list (list jsstring),
    exportData staged = Some (headerRow :: rows) ∧
    length rows = length (allOf finalABCD) ∧
    (∀ row, row ∈ headerRow :: rows → length row = 3%nat) ∧
    (λ row, default [] (head row)) <$> rows = names (allOf finalABCD) ∧
    (∀ (s : AttendanceStatus) (a : Attendee), a ∈ bucket s finalABCD →
       [name a; getStatusLabel (Some s);
        if decide (s = PRESENT) then orElse (originalName a) [] else []] ∈ rows) ∧
    (∀ s s' : option AttendanceStatus, getStatusLabel s = getStatusLabel s' → s = s').
Proof. apply (exportData_rows staged finalABCD eq_refl). Defined.

Lemma runAnalysis_without_names_witness :
  error (runAnalysis codeUnitCompare envNoNames pageReady) = Some msgNoNames ∧
  core (runAnalysis codeUnitCompare envNoNames pageReady) = core pageReady ∧
  loading (runAnalysis codeUnitCompare envNoNames pageReady) = false.
Proof.
  apply (runAnalysis_without_names codeUnitCompare envNoNames pageReady);
    [reflexivity | discriminate | reflexivity].
Defined.

Lemma runAnalysis_missing_inputs_witness :
  error (runAnalysis codeUnitCompare envAnswers (setSourceMode image pageReady)) =
    Some msgMissingInputs ∧
  core (runAnalysis codeUnitCompare envAnswers (setSourceMode image pageReady)) =
    initialState ∧
  loading (runAnalysis codeUnitCompare envAnswers (setSourceMode image pageReady)) = false ∧
  excelFile (runAnalysis codeUnitCompare envAnswers (setSourceMode image pageReady)) =
    Some (MkFile 1) ∧
  inFlight (act codeUnitCompare asciiLower envAnswers
              {| page := setSourceMode image pageReady; inFlight := [] |}
              (User StartAnalysis)) = [].
Proof.
  destruct (runAnalysis_missing_inputs codeUnitCompare asciiLower envAnswers
              (setSourceMode image pageReady))
    as (He & Hc & Hl & _ & Hx & _ & _ & _ & _ & _ & _ & Hjobs).
  { right. left. split; reflexivity. }
  exact (conj He (conj Hc (conj Hl (conj Hx (Hjobs []))))).
Defined.

Lemma offered_click_returns_witness :
  offered asciiLower (Reject 0) pageReviewing = true ∧
  (click codeUnitCompare (Reject 0) pageReviewing).1 = Returned.
Proof.
  assert (Hoff : offered asciiLower (Reject 0) pageReviewing = true) by reflexivity.
  exact (conj Hoff
           (offered_click_returns codeUnitCompare asciiLower (Reject 0)
              pageReviewing Hoff)).
Defined.

Lemma session_shows_whole_report_witness :
  filteredDisplay asciiLower
    (searchTerm (session codeUnitCompare asciiLower envAnswers moves))
    (core (session codeUnitCompare asciiLower envAnswers moves)) =
  finalResults (core (session codeUnitCompare asciiLower envAnswers moves)).
Proof.
  apply (session_shows_whole_report codeUnitCompare asciiLower envAnswers moves).
  reflexivity.
Defined.

(** A second click on the start button while a run is in flight is lost:
    the button is disabled, and one run stays in flight next to the
    reading of the sheet. *)
Example session_second_start_lost :
  inFlight (sessionLive codeUnitCompare asciiLower envAnswers
              [User (UploadOfficial [MkFile 1]); User (UploadScreenshots [MkFile 2]);
               User StartAnalysis; User StartAnalysis]) =
    [Reading (Resolved [js "Ali Hassan"; js "Omar Said"]);
     Analysing (Resolved (toProcessingResult response))] ∧
  loading (session codeUnitCompare asciiLower envAnswers
             [User (UploadOfficial [MkFile 1]); User (UploadScreenshots [MkFile 2]);
              User StartAnalysis; User StartAnalysis]) = true.
Proof. by vm_compute. Qed.

(** The sample session ends in the report with [B] ticked and the move to
    Absent staged in the open dialog. *)
Example session_sample :
  let pg := session codeUnitCompare asciiLower envAnswers moves in
  view asciiLower (searchTerm pg) (core pg) = ReportView ∧
  names (allOf (default emptyResult (finalResults (core pg)))) =
    [js "B"; js "A"; js "C"; js "A-zoom"; js "D"] ∧
  pendingStatus (core pg) = Some ABSENT ∧
  showBulkConfirm (core pg) = true ∧
  elements (selectedNames (core pg)) = [js "B"].
Proof. vm_compute. done. Qed.

End MoreConcreteRuns.
